(** * mongooplog: tailing an oplog and replaying it in batches

    A shallow embedding of [src/mongooplog/mongooplog.go]: the start-up
    sequence of [Run], the cursor built by [buildTailingCursor], and the
    two tasks of the streaming phase (the reader goroutine and the
    select loop of the coordinator) as a small-step machine driven by a
    schedule of events. *)

From Stdlib Require Import ZArith List String Ascii Bool Lia DecimalString.
Import ListNotations.

Local Open Scope string_scope.
Local Open Scope list_scope.
Local Open Scope Z_scope.

(** Go's [+] on strings; [++] is kept for lists. *)
Infix "+++" := String.append (right associativity, at level 60).

(** ** Go machine integers *)

(** [uint64(x)]: the value of [x] in 64 bits, read unsigned. *)
Definition uint64 (x : Z) : Z := x mod 2 ^ 64.

(** [int64(x)]: the value of [x] in 64 bits, read in two's complement. *)
Definition int64 (x : Z) : Z := (x + 2 ^ 63) mod 2 ^ 64 - 2 ^ 63.

(** [%v] of an integer. *)
Definition fmt_int (x : Z) : string := NilZero.string_of_int (Z.to_int x).

(** ** The collaborating packages, as far as [Run] uses them *)

Module time.
(** A [Duration] is an int64 count of nanoseconds. *)
Definition Duration := Z.
Definition Second : Duration := 1000000000.

(** An instant, as nanoseconds elapsed since the Unix epoch. *)
Record Time := { nanos : Z }.

Definition Add (t : Time) (d : Duration) : Time := {| nanos := nanos t + d |}.

(** [t.Unix()]: whole seconds since the epoch. *)
Definition Unix (t : Time) : Z := nanos t / Second.

Definition FromUnix (sec : Z) : Time := {| nanos := sec * Second |}.
End time.

Module bson.
(** A document is kept as the ordered list of its elements. *)
#[warnings="-register-all"]
Inductive value :=
| VInt (z : Z)
| VString (s : string)
| VDoc (d : list (string * value)).

Definition D := list (string * value).

(** [bson.MongoTimestamp] is an int64. *)
Definition MongoTimestamp (x : Z) : Z := int64 x.
End bson.

Module db.
(** Modelled from the spec: the declaration of [db.Oplog] is not among
    the sources. An entry has the fields the spec lists: [ts], a 64-bit
    hybrid timestamp, [op], [ns], the payload [o] and the optional update
    selector [o2]. *)
Record Oplog := {
  Timestamp : Z;
  Operation : string;
  Namespace : string;
  Object    : bson.D;
  Query     : bson.D
}.

(** Modelled from the spec: the declaration of [db.ApplyOpsResponse] is
    not among the sources. The reply is "{ ok: boolean, errmsg: optional
    string }". *)
Record ApplyOpsResponse := { Ok : bool; ErrMsg : string }.

(** The zero values [&db.Oplog{}] and [&db.ApplyOpsResponse{}]. *)
Definition zeroOplog : Oplog :=
  {| Timestamp := 0; Operation := ""; Namespace := ""; Object := [];
     Query := [] |}.
Definition zeroResponse : ApplyOpsResponse := {| Ok := false; ErrMsg := "" |}.
End db.
Import db.

Module mgo.
(** The selector [bson.M{"ts": bson.M{"$gte": t}}], the only one the
    program builds. *)
Inductive Selector := TsGte (t : Z).

(** A collection of the source: the entries the oplog holds and receives
    while it is tailed, in insertion order, and the error (if any) the
    cursor ends with. *)
Record Collection := {
  documents : list Oplog;
  failure   : option string
}.

Record Query := {
  target    : Collection;
  selector  : Selector;
  logReplay : bool
}.

Record Iter := {
  pending : list Oplog;
  iterErr : option string;
  replay  : bool;
  timeout : time.Duration
}.

(** Modelled from the spec: the server side of the tailing query, which
    is not part of the sources. "opens a tailing query selecting entries
    with timestamp >= threshold". *)
Definition selects (sel : Selector) (e : Oplog) : bool :=
  match sel with TsGte t => t <=? Timestamp e end.

Definition Find (c : Collection) (sel : Selector) : Query :=
  {| target := c; selector := sel; logReplay := false |}.

Definition LogReplay (q : Query) : Query :=
  {| target := target q; selector := selector q; logReplay := true |}.

Definition Tail (d : time.Duration) (q : Query) : Iter :=
  {| pending := filter (selects (selector q)) (documents (target q));
     iterErr := failure (target q);
     replay := logReplay q;
     timeout := d |}.

(** [iter.Next(result)]: the next entry and the advanced cursor, or
    [None] when the cursor has nothing more to give (idle time-out or
    error). *)
Definition Next (it : Iter) : option (Oplog * Iter) :=
  match pending it with
  | [] => None
  | e :: rest =>
      Some (e, {| pending := rest; iterErr := iterErr it;
                  replay := replay it; timeout := timeout it |})
  end.

Definition Err (it : Iter) : option string := iterErr it.

(** A session gives access to the collections of its server. *)
Record Session := { C : string -> string -> Collection }.
End mgo.

(** ** Options

    The option records are declared outside the sources at hand; they
    are given the fields [Run] reads. *)

Record SourceOptions := {
  From    : string;
  OplogNS : string;
  Seconds : Z
}.

Record ToolOptions := { Host : string; Port : string }.

(** A session provider is given by what its [GetSession] answers. *)
Record SessionProvider := { GetSession : mgo.Session + string }.

Record MongoOplog := {
  toolOptions         : ToolOptions;
  sourceOptions       : SourceOptions;
  SessionProviderFrom : SessionProvider;
  SessionProviderTo   : SessionProvider
}.

(** ** buildTailingCursor *)

Definition secondsInPast (so : SourceOptions) : time.Duration :=
  int64 (Seconds so * time.Second).

Definition thresholdAsUnix (now : time.Time) (so : SourceOptions) : Z :=
  time.Unix (time.Add now (int64 (- secondsInPast so))).

Definition thresholdShifted (now : time.Time) (so : SourceOptions) : Z :=
  uint64 (Z.shiftl (uint64 (thresholdAsUnix now so)) 32).

Definition oplogQuery (now : time.Time) (so : SourceOptions) : mgo.Selector :=
  mgo.TsGte (bson.MongoTimestamp (thresholdShifted now so)).

Definition buildTailingCursor (now : time.Time) (oplog : mgo.Collection)
    (so : SourceOptions) : mgo.Iter :=
  mgo.Tail (600 * time.Second)
    (mgo.LogReplay (mgo.Find oplog (oplogQuery now so))).

(** ** The streaming phase of [Run]

    Two tasks run side by side: the goroutine that reads the cursor and
    the select loop of [Run]. They meet only on the unbuffered channel
    [oplogChan]. A run is a schedule of events, each one enabled or not
    in the current state. *)

Module log.
Inductive verbosity := Always | DebugLow | DebugHigh.
End log.

Definition logline := (log.verbosity * string)%type.

(** Where the reader goroutine stands. *)
Inductive ppoint :=
| PNext      (* about to call tail.Next *)
| PSend      (* blocked in oplogChan <- *oplogEntry *)
| PCount     (* the send is done, opCount++ comes next *)
| PExit.     (* the goroutine has returned *)

(** Where the coordinator stands. [Run]'s result is a Go [error]:
    [None] is nil. *)
Inductive cpoint :=
| CSelect                          (* waiting in the select *)
| CApplyTimer                      (* inside toSession.Run, timer case *)
| CApplySize (opEntry : Oplog)     (* inside toSession.Run, channel case *)
| CReturned (err : option string). (* Run has returned *)

(** What [toSession.Run] comes back with: a transport error, or the
    reply decoded into [res]. *)
Inductive RunOutcome :=
| RunErr (msg : string)
| RunReply (r : ApplyOpsResponse).

(** Which case of the select issued an applyOps command. *)
Inductive trigger := ByTimer | BySize.

Inductive event :=
| Reader                 (* the goroutine runs up to its next blocking point *)
| Hand                   (* the select takes <-oplogChan *)
| Tick                   (* the select takes <-timer.C *)
| Reply (o : RunOutcome). (* toSession.Run returns *)

Record producer := {
  tail       : mgo.Iter;
  oplogEntry : Oplog;
  opCount    : Z;
  pc         : ppoint
}.

Record coordinator := {
  opsToApply : list Oplog;
  res        : ApplyOpsResponse;
  at_        : cpoint
}.

(** The destination as the coordinator sees it: the applyOps commands
    sent so far and the outcomes received, both oldest first. *)
Record destination := {
  calls   : list (trigger * list Oplog);
  replies : list RunOutcome
}.

Record sys := {
  reader : producer;
  main   : coordinator;
  dest   : destination;
  out    : list logline
}.

Definition maxSize : Z := 10000.

Definition len {A} (l : list A) : Z := Z.of_nat (List.length l).

Definition with_reader (s : sys) (p : producer) (l : list logline) : sys :=
  {| reader := p; main := main s; dest := dest s; out := out s ++ l |}.

(** [toSession.Run(bson.M{"applyOps": opsToApply}, res)] is entered: the
    command goes out and the coordinator waits for its outcome. *)
Definition send_applyOps (s : sys) (p : producer) (ops : list Oplog)
    (why : trigger) (k : cpoint) : sys :=
  {| reader := p;
     main := {| opsToApply := ops; res := res (main s); at_ := k |};
     dest := {| calls := calls (dest s) ++ [(why, ops)];
                replies := replies (dest s) |};
     out := out s |}.

(** One step of the goroutine, lines 93-118. *)
Definition reader_step (s : sys) : option sys :=
  let r := reader s in
  match pc r with
  | PNext =>
      match mgo.Next (tail r) with
      | Some (e, it) =>
          if (Operation e =? "n")%string then
            Some (with_reader s
                    {| tail := it; oplogEntry := e; opCount := opCount r;
                       pc := PNext |}
                    [(log.DebugHigh,
                      "skipping no-op for namespace `" +++ Namespace e +++ "`")])
          else
            Some (with_reader s
                    {| tail := it; oplogEntry := e; opCount := opCount r;
                       pc := PSend |} [])
      | None =>
          let r' := {| tail := tail r; oplogEntry := oplogEntry r;
                       opCount := opCount r; pc := PExit |} in
          match mgo.Err (tail r) with
          | Some err =>
              Some (with_reader s r'
                      [(log.Always, "error querying oplog: " +++ err)])
          | None =>
              Some (with_reader s r'
                      [(log.DebugLow,
                        "done applying " +++ fmt_int (opCount r)
                          +++ " oplog entries")])
          end
      end
  | PCount =>
      let n := int64 (opCount r + 1) in
      Some (with_reader s
              {| tail := tail r; oplogEntry := oplogEntry r; opCount := n;
                 pc := PNext |}
              (if n =? 1 then
                 [(log.Always,
                   "Got first oplog with Timestamp: "
                     +++ fmt_int (Z.shiftr (Timestamp (oplogEntry r)) 32));
                  (log.Always,
                   "If this newer than target's last oplog, stop this.")]
               else []))
  | PSend | PExit => None
  end.

(** The channel case of the select, lines 147-169. *)
Definition hand_step (s : sys) : option sys :=
  match at_ (main s), pc (reader s) with
  | CSelect, PSend =>
      let r := reader s in
      let opEntry := oplogEntry r in
      let r' := {| tail := tail r; oplogEntry := oplogEntry r;
                   opCount := opCount r; pc := PCount |} in
      let ops := opsToApply (main s) ++ [opEntry] in
      if len ops >=? maxSize then
        Some (send_applyOps s r' ops BySize (CApplySize opEntry))
      else
        Some {| reader := r';
                main := {| opsToApply := ops; res := res (main s);
                           at_ := CSelect |};
                dest := dest s; out := out s |}
  | _, _ => None
  end.

(** The timer case of the select, lines 125-131. *)
Definition tick_step (s : sys) : option sys :=
  match at_ (main s) with
  | CSelect =>
      if len (opsToApply (main s)) =? 0 then Some s
      else Some (send_applyOps s (reader s) (opsToApply (main s)) ByTimer
                   CApplyTimer)
  | _ => None
  end.

(** The line logged after a batch went through. *)
Definition applied_line (s : sys) (last_ts : Z) : logline :=
  (log.Always,
   fmt_int (len (opsToApply (main s))) +++ " oplogs have been applied, total: "
     +++ fmt_int (opCount (reader s)) +++ ". Last: "
     +++ fmt_int (Z.shiftr last_ts 32)).

(** [toSession.Run] returns, lines 133-145 and 156-168. *)
Definition reply_step (o : RunOutcome) (s : sys) : option sys :=
  let answered := {| calls := calls (dest s);
                     replies := replies (dest s) ++ [o] |} in
  let finish (last_ts : Z) :=
    match o with
    | RunErr msg =>
        Some {| reader := reader s;
                main := {| opsToApply := opsToApply (main s);
                           res := res (main s);
                           at_ := CReturned
                                    (Some ("error applying ops: " +++ msg)) |};
                dest := answered; out := out s |}
    | RunReply r =>
        if negb (Ok r) then
          Some {| reader := reader s;
                  main := {| opsToApply := opsToApply (main s); res := r;
                             at_ := CReturned
                                      (Some ("server gave error applying ops: "
                                               +++ ErrMsg r)) |};
                  dest := answered; out := out s |}
        else
          Some {| reader := reader s;
                  main := {| opsToApply := []; res := r; at_ := CSelect |};
                  dest := answered;
                  out := out s ++ [applied_line s last_ts] |}
    end in
  match at_ (main s) with
  | CApplyTimer =>
      finish (Timestamp (last (opsToApply (main s)) zeroOplog))
  | CApplySize opEntry => finish (Timestamp opEntry)
  | CSelect | CReturned _ => None
  end.

Definition step (ev : event) (s : sys) : option sys :=
  match ev with
  | Reader => reader_step s
  | Hand => hand_step s
  | Tick => tick_step s
  | Reply o => reply_step o s
  end.

(** A schedule, run from a state; [None] when some event of it is not
    enabled where it stands. *)
Fixpoint run (evs : list event) (s : sys) : option sys :=
  match evs with
  | [] => Some s
  | ev :: rest =>
      match step ev s with
      | Some s' => run rest s'
      | None => None
      end
  end.

(** The state in which the loop is entered, lines 83-91 and 121-122. *)
Definition streaming (it : mgo.Iter) : sys :=
  {| reader := {| tail := it; oplogEntry := zeroOplog; opCount := 0;
                  pc := PNext |};
     main := {| opsToApply := []; res := zeroResponse; at_ := CSelect |};
     dest := {| calls := []; replies := [] |};
     out := [(log.DebugLow, "applying oplog entries...")] |}.

(** ** The start-up of [Run], lines 33-79

    What the function does to its collaborators before the loop is kept
    as a trace of actions, oldest first. *)

Inductive endpoint := Destination | Source.

Inductive action :=
| Logvf (v : log.verbosity) (msg : string)
| AskSession (e : endpoint)                 (* provider.GetSession() *)
| SetSocketTimeout (e : endpoint) (d : time.Duration)
| SetModeEventual (e : endpoint) (refresh : bool)
| OpenTail (database collection : string)   (* buildTailingCursor *)
| CloseSession (e : endpoint).              (* a deferred Close *)

(** Either [Run] has returned an error already, or it is in its loop. *)
Inductive started :=
| Refused (err : string)
| Entered (s : sys).

Section Startup.

(** [util.SplitAndValidateNamespace] is not among the sources: it is
    taken as given, with its three results. *)
Variable SplitAndValidateNamespace : string -> string * string * option string.

Definition Run_start (mo : MongoOplog) (now : time.Time)
    : list action * started :=
  let '(oplogDB, oplogColl, err) :=
    SplitAndValidateNamespace (OplogNS (sourceOptions mo)) in
  match err with
  | Some e => ([], Refused e)
  | None =>
  if (oplogColl =? "")%string then
    ([], Refused "the oplog namespace must specify a collection")
  else
  let t1 :=
    [Logvf log.DebugLow
       ("using oplog namespace `" +++ oplogDB +++ "." +++ oplogColl +++ "`");
     AskSession Destination] in
  match GetSession (SessionProviderTo mo) with
  | inr e => (t1, Refused ("error connecting to destination db: " +++ e))
  | inl toSession =>
  let destServerStr :=
    if negb (Port (toolOptions mo) =? "")%string
    then Host (toolOptions mo) +++ ":" +++ Port (toolOptions mo)
    else Host (toolOptions mo) in
  let t2 := t1 ++
    [SetSocketTimeout Destination 0;
     Logvf log.DebugLow
       ("successfully connected to destination server `"
          +++ destServerStr +++ "`");
     AskSession Source] in
  match GetSession (SessionProviderFrom mo) with
  | inr e =>
      (t2 ++ [CloseSession Destination],
       Refused ("error connecting to source db: " +++ e))
  | inl fromSession =>
  let t3 := t2 ++
    [SetSocketTimeout Source 0;
     Logvf log.DebugLow
       ("successfully connected to source server `"
          +++ From (sourceOptions mo) +++ "`");
     SetModeEventual Source true;
     OpenTail oplogDB oplogColl] in
  let tail :=
    buildTailingCursor now (mgo.C fromSession oplogDB oplogColl)
      (sourceOptions mo) in
  (t3, Entered (streaming tail))
  end end end.

End Startup.

(** Modelled from the spec: a splitter to run [Run_start] with, standing
    for the absent [util.SplitAndValidateNamespace]. The namespace is
    "<db>.<collection>": it is cut at its first dot, and one without a dot
    has no collection part. *)
Fixpoint splitNamespace (ns : string) : string * string :=
  match ns with
  | EmptyString => ("", "")
  | String c rest =>
      if Ascii.eqb c "."%char then ("", rest)
      else let '(d, coll) := splitNamespace rest in (String c d, coll)
  end.

Definition splitOnly (ns : string) : string * string * option string :=
  (splitNamespace ns, None).

(** ** Reading a state *)

(** The batches sent to the destination, in the order of the calls. *)
Definition batches (s : sys) : list (list Oplog) := map snd (calls (dest s)).

(** Every entry that went out in some applyOps command, in order. *)
Definition appliedOps (s : sys) : list Oplog := List.concat (batches s).

(** Calls sent and not yet answered. *)
Definition inFlight (s : sys) : Z :=
  len (calls (dest s)) - len (replies (dest s)).

(** The entries held back: those appended to [opsToApply] that no call
    carries yet. While a call is out, or after its failure, the buffer
    still holds the batch of that call. *)
Definition unflushed (s : sys) : list Oplog :=
  match at_ (main s) with
  | CSelect => opsToApply (main s)
  | _ => []
  end.

(** The entry the goroutine holds in its blocked send, if any. *)
Definition offered (s : sys) : list Oplog :=
  match pc (reader s) with
  | PSend => [oplogEntry (reader s)]
  | _ => []
  end.

Definition isNoop (e : Oplog) : bool := (Operation e =? "n")%string.

(** The entries the filter of line 96 lets through. *)
Definition forwarded (l : list Oplog) : list Oplog :=
  filter (fun e => negb (isNoop e)) l.

(** [sub] occurs in [s]. *)
Definition Contains (s sub : string) : Prop :=
  exists pre post, s = pre +++ sub +++ post.

(** An outcome of [toSession.Run] that ends the run, with the error
    [Run] returns for it. *)
Definition fatal (o : RunOutcome) : option string :=
  match o with
  | RunErr msg => Some ("error applying ops: " +++ msg)
  | RunReply r =>
      if Ok r then None
      else Some ("server gave error applying ops: " +++ ErrMsg r)
  end.

(** ** Invariants of the streaming phase *)

(** An outcome that lets the loop go on. *)
Definition quiet (o : RunOutcome) : Prop := fatal o = None.

(** The size a call may have, by the case of the select that sent it. *)
Definition batch_ok (c : trigger * list Oplog) : Prop :=
  match fst c with
  | ByTimer => 1 <= len (snd c) < maxSize
  | BySize => len (snd c) = maxSize
  end.

(** What holds of the coordinator and the destination at each point. *)
Definition coord_ok (s : sys) : Prop :=
  let ops := opsToApply (main s) in
  let d := dest s in
  match at_ (main s) with
  | CSelect =>
      len ops < maxSize /\ len (calls d) = len (replies d)
      /\ Forall quiet (replies d)
  | CApplyTimer =>
      exists cs, calls d = cs ++ [(ByTimer, ops)]
                 /\ len cs = len (replies d) /\ Forall quiet (replies d)
  | CApplySize e =>
      exists cs, calls d = cs ++ [(BySize, ops)]
                 /\ len cs = len (replies d) /\ Forall quiet (replies d)
  | CReturned r =>
      exists cs why rs o m,
        calls d = cs ++ [(why, ops)] /\ replies d = rs ++ [o]
        /\ len cs = len rs /\ Forall quiet rs
        /\ fatal o = Some m /\ r = Some m
  end.

(** Nothing read from the cursor is lost, repeated or moved: what went
    out, what is buffered and what is offered on the channel make up,
    in this order, the filtered part of what was read. *)
Definition flow (input : list Oplog) (s : sys) : Prop :=
  exists consumed,
    input = consumed ++ mgo.pending (tail (reader s))
    /\ appliedOps s ++ unflushed s ++ offered s = forwarded consumed.

Record Inv (input : list Oplog) (s : sys) : Prop := {
  inv_flow    : flow input s;
  inv_coord   : coord_ok s;
  inv_batches : Forall batch_ok (calls (dest s))
}.

(** The coordinator is inside [toSession.Run]. *)
Definition applying (s : sys) : Prop :=
  at_ (main s) = CApplyTimer \/ exists e, at_ (main s) = CApplySize e.

(** Everything the cursor had has been read and nothing is held back:
    the goroutine is done and the loop waits with an empty buffer. *)
Definition drained (s : sys) : Prop :=
  mgo.pending (tail (reader s)) = [] /\ pc (reader s) = PExit
  /\ at_ (main s) = CSelect /\ opsToApply (main s) = [].

(** ** A scenario to run the machine on

    The source yields op1 (ts 100), op2 (ts 101), a no-op (ts 102) and
    op3 (ts 103); the timer fires once op2 is buffered. *)

Module Scenario.
Definition entry (sec : Z) (kind : string) : Oplog :=
  {| Timestamp := Z.shiftl sec 32;
     Operation := kind; Namespace := "shop.orders";
     Object := [("_id", bson.VInt sec)]; Query := [] |}.

Definition op1 := entry 100 "i".
Definition op2 := entry 101 "u".
Definition noop := entry 102 "n".
Definition op3 := entry 103 "d".

Definition cursor (l : list Oplog) : mgo.Iter :=
  {| mgo.pending := l; mgo.iterErr := None; mgo.replay := true;
     mgo.timeout := 600 * time.Second |}.

Definition applied : RunOutcome := RunReply {| Ok := true; ErrMsg := "" |}.
Definition rejected : RunOutcome :=
  RunReply {| Ok := false; ErrMsg := "duplicate key" |}.

(** op1 alone was read and handed over, the timer has fired and the call
    carrying it is out. *)
Definition awaiting : sys :=
  {| reader := {| tail := cursor []; oplogEntry := op1; opCount := 0;
                  pc := PCount |};
     main := {| opsToApply := [op1]; res := zeroResponse;
                at_ := CApplyTimer |};
     dest := {| calls := [(ByTimer, [op1])]; replies := [] |};
     out := [(log.DebugLow, "applying oplog entries...")] |}.

(** op1 and op2 are handed over, the timer fires, the call succeeds. *)
Definition first_flush : list event :=
  [Reader; Hand; Reader; Reader; Hand; Reader; Tick; Reply applied].

(** Then the no-op is read and dropped, op3 is handed over, the cursor
    runs dry and the next tick flushes op3 alone. *)
Definition whole : list event :=
  first_flush
    ++ [Reader; Reader; Hand; Reader; Reader; Tick; Reply applied].

(** The same without the no-op in the source. *)
Definition whole_plain : list event :=
  first_flush ++ [Reader; Hand; Reader; Reader; Tick; Reply applied].
End Scenario.

(** A tool set up to run [Run_start] on. *)
Module Setup.
Definition oplog : mgo.Collection :=
  {| mgo.documents :=
       [Scenario.op1; Scenario.op2; Scenario.noop; Scenario.op3];
     mgo.failure := None |}.

Definition server : mgo.Session := {| mgo.C := fun _ _ => oplog |}.

Definition tool (ns : string) : MongoOplog :=
  {| toolOptions := {| Host := "db2"; Port := "27017" |};
     sourceOptions := {| From := "db1:27017"; OplogNS := ns;
                         Seconds := 60 |};
     SessionProviderFrom := {| GetSession := inl server |};
     SessionProviderTo := {| GetSession := inl server |} |}.
End Setup.

(** ** Further readings of a state *)

(** The entries the coordinator has taken from the channel so far. *)
Definition received (s : sys) : list Oplog := appliedOps s ++ unflushed s.

(** 1 while the goroutine has a send behind it that [opCount] does not
    count yet. *)
Definition uncounted (s : sys) : Z :=
  match pc (reader s) with PCount => 1 | _ => 0 end.

(** [opCount] follows the hand-offs. *)
Definition count_ok (s : sys) : Prop :=
  opCount (reader s) = int64 (len (received s) - uncounted s).

(** In the channel case [opEntry] is the entry just appended. *)
Definition size_entry_ok (s : sys) : Prop :=
  match at_ (main s) with
  | CApplySize e => last (opsToApply (main s)) zeroOplog = e
  | _ => True
  end.

(** The state the scenario ends in. *)
Definition finished : sys :=
  Eval vm_compute in
    match run Scenario.whole
            (streaming (Scenario.cursor
               [Scenario.op1; Scenario.op2; Scenario.noop; Scenario.op3]))
    with
    | Some s => s
    | None => streaming (Scenario.cursor [])
    end.

(** A state in which [Run] has returned on a rejected batch while the
    goroutine offers the next entry. *)
Definition stranded : sys :=
  Eval vm_compute in
    match run [Reader; Hand; Tick; Reply Scenario.rejected; Reader; Reader]
            (streaming (Scenario.cursor [Scenario.op1; Scenario.op2]))
    with
    | Some s => s
    | None => streaming (Scenario.cursor [])
    end.

(** The tool of [Setup] with one or the other server out of reach. *)
Definition tool_without_destination : MongoOplog :=
  {| toolOptions := toolOptions (Setup.tool "local.oplog.rs");
     sourceOptions := sourceOptions (Setup.tool "local.oplog.rs");
     SessionProviderFrom := {| GetSession := inl Setup.server |};
     SessionProviderTo := {| GetSession := inr "no reachable servers" |} |}.

Definition tool_without_source : MongoOplog :=
  {| toolOptions := toolOptions (Setup.tool "local.oplog.rs");
     sourceOptions := sourceOptions (Setup.tool "local.oplog.rs");
     SessionProviderFrom := {| GetSession := inr "no reachable servers" |};
     SessionProviderTo := {| GetSession := inl Setup.server |} |}.

(** The scenario with the tick taken earlier, after op1 alone. *)
Definition early_tick : list event :=
  [Reader; Hand; Reader; Tick; Reply Scenario.applied;
   Reader; Hand; Reader; Reader; Reader; Hand; Reader; Reader;
   Tick; Reply Scenario.applied].

Definition finished_early : sys :=
  Eval vm_compute in
    match run early_tick
            (streaming (Scenario.cursor
               [Scenario.op1; Scenario.op2; Scenario.noop; Scenario.op3]))
    with
    | Some s => s
    | None => streaming (Scenario.cursor [])
    end.

(** ** The verifiers of the replay tests

    The closures named [verifier] in [src/mongoreplay/pcap_test.go], as
    functions of what they read: the buffer of the stat recorder and the
    answers of the database. *)

Module testing.
(** What a test has told its [*testing.T], oldest first: [t.Log] leaves a
    line, [t.Error] and [t.Errorf] leave a line and mark the test as
    failed. *)
Inductive line := Log (msg : string) | Error (msg : string).
Definition T := list line.

Definition isError (l : line) : bool :=
  match l with Error _ => true | Log _ => false end.

(** [t.Failed()]. *)
Definition Failed (t : T) : bool := existsb isError t.
End testing.

(** The loop of the verifier of [TestOpCommandFromPcapFileLiveDB], lines
    34-39, over the values [iter.Next] decodes into [result.TestNum]. *)
Fixpoint checkTestNums (results : list Z) (ind : Z) (t : testing.T)
    : Z * testing.T :=
  match results with
  | [] => (ind, t)
  | TestNum :: rest =>
      checkTestNums rest (int64 (ind + 1))
        (if negb (TestNum =? ind) then
           t ++ [testing.Error
                   ("document number not matched. Expected: " +++ fmt_int ind
                      +++ " -- found " +++ fmt_int TestNum)]
         else t)
  end.

(** The verifier of [TestOpCommandFromPcapFileLiveDB], lines 24-44. *)
Definition verifyOpCommand (results : list Z) : testing.T :=
  let t :=
    [testing.Log "Verifying that the correct number of getmores were seen";
     testing.Log "Querying database to ensure insert occured successfully"] in
  let '(ind, t) := checkTestNums results 1 t in
  if negb (ind =? 3) then
    t ++ [testing.Error
            ("did not find the correct number of documents. Expected "
               +++ fmt_int (int64 (ind - 1)) +++ " -- found " +++ fmt_int 2)]
  else t.

Section StatVerifiers.

(** The entries of [statRecorder.Buffer] are declared outside the sources
    at hand: they are taken as given, with the three fields read here. *)
Variable OpStat : Type.
Variable OpType : OpStat -> string.
Variable Command : OpStat -> string.
Variable NumReturned : OpStat -> Z.

Definition isGetMore (val : OpStat) : bool := (OpType val =? "getmore")%string.

Definition isAggregate (val : OpStat) : bool :=
  (OpType val =? "command")%string && (Command val =? "aggregate")%string.

(** The loop of the verifier of [TestSingleChannelGetMoreLiveDB], lines
    74-81. *)
Fixpoint scanSingleChannel (buffer : list OpStat) (getMoresSeen : Z)
    (t : testing.T) : Z * testing.T :=
  match buffer with
  | [] => (getMoresSeen, t)
  | val :: rest =>
      if (OpType val =? "getmore")%string then
        scanSingleChannel rest (int64 (getMoresSeen + 1))
          (if NumReturned val >? 0 then
             t ++ [testing.Error
                     ("Getmore shouldn't have returned anything, but returned "
                        +++ fmt_int (NumReturned val))]
           else t)
      else scanSingleChannel rest getMoresSeen t
  end.

(** The verifier of [TestSingleChannelGetMoreLiveDB], lines 72-92;
    [num] is what [coll.Count()] answers. *)
Definition verifySingleChannel (buffer : list OpStat) (num : Z) : testing.T :=
  let '(getMoresSeen, t) := scanSingleChannel buffer 0 [] in
  let t :=
    if negb (getMoresSeen =? 8) then
      t ++ [testing.Error
              ("Didn't seen the correct number of getmores, expected 8 but saw "
                 +++ fmt_int getMoresSeen)]
    else t in
  if num <? 1 then
    t ++ [testing.Error "Didn't find any documents in the database"]
  else t.

(** The loop of the verifier of [TestMultiChannelGetMoreLiveDB], lines
    102-114. *)
Fixpoint scanMultiChannel (buffer : list OpStat)
    (aggregationsSeen getMoresSeen : Z) (t : testing.T)
    : Z * Z * testing.T :=
  match buffer with
  | [] => (aggregationsSeen, getMoresSeen, t)
  | val :: rest =>
      if (OpType val =? "command")%string
         && (Command val =? "aggregate")%string then
        scanMultiChannel rest (int64 (aggregationsSeen + 1)) getMoresSeen t
      else if (OpType val =? "getmore")%string then
        let t1 :=
          if negb (aggregationsSeen =? 2) then
            t ++ [testing.Error
                    "Getmore seen before cursor producing operation"]
          else t in
        let t2 :=
          if NumReturned val <? 100 then
            t1 ++ [testing.Error
                     ("Getmore should have returned a full batch, but only returned "
                        +++ fmt_int (NumReturned val))]
          else t1 in
        scanMultiChannel rest aggregationsSeen (int64 (getMoresSeen + 1)) t2
      else scanMultiChannel rest aggregationsSeen getMoresSeen t
  end.

(** The verifier of [TestMultiChannelGetMoreLiveDB], lines 99-125. *)
Definition verifyMultiChannel (buffer : list OpStat) (num : Z) : testing.T :=
  let '(_, getMoresSeen, t) := scanMultiChannel buffer 0 0 [] in
  let t :=
    if negb (getMoresSeen =? 8) then
      t ++ [testing.Error
              ("Didn't seen the correct number of getmores, expected 8 but saw "
                 +++ fmt_int getMoresSeen)]
    else t in
  if num <? 1 then
    t ++ [testing.Error "Didn't find any documents in the database"]
  else t.

End StatVerifiers.

(** A stat record to run the verifiers on. *)
Record stat := { statType : string; statCommand : string; statReturned : Z }.

Definition getmore (n : Z) : stat :=
  {| statType := "getmore"; statCommand := ""; statReturned := n |}.

Definition aggregate : stat :=
  {| statType := "command"; statCommand := "aggregate"; statReturned := 0 |}.

(** Eight getmores that return nothing, as the single-channel test wants
    them, and two aggregates followed by eight full getmores, as the
    multi-channel test wants them. *)
Definition single_channel_buffer : list stat :=
  [getmore 0; getmore 0; getmore 0; getmore 0;
   getmore 0; getmore 0; getmore 0; getmore 0].

Definition multi_channel_buffer : list stat :=
  [aggregate; aggregate;
   getmore 101; getmore 101; getmore 101; getmore 101;
   getmore 101; getmore 101; getmore 101; getmore 101].

(** * Proofs *)

(** ** Small facts on lists and strings *)

Lemma len_app1 {A} (l : list A) (x : A) : len (l ++ [x]) = len l + 1.
Proof. unfold len. rewrite length_app. simpl. lia. Qed.

Lemma len_nonneg {A} (l : list A) : 0 <= len l.
Proof. unfold len. lia. Qed.

Lemma len_zero {A} (l : list A) : len l = 0 -> l = [].
Proof. destruct l; [reflexivity | unfold len; simpl; lia]. Qed.

Lemma concat_snd_app1 {A B} (cs : list (A * list B)) (w : A) (ops : list B) :
  List.concat (map snd (cs ++ [(w, ops)])) = List.concat (map snd cs) ++ ops.
Proof.
  rewrite map_app, concat_app. simpl. now rewrite app_nil_r.
Qed.

Lemma forwarded_app (l1 l2 : list Oplog) :
  forwarded (l1 ++ l2) = forwarded l1 ++ forwarded l2.
Proof. apply filter_app. Qed.

Lemma forwarded_all (l : list Oplog) :
  Forall (fun e => Operation e <> "n") l -> forwarded l = l.
Proof.
  induction 1 as [|e l He _ IH]; [reflexivity|].
  unfold forwarded, isNoop in *. simpl.
  destruct (String.eqb_spec (Operation e) "n"); [contradiction|].
  simpl. now rewrite IH.
Qed.

Lemma forwarded_In (l : list Oplog) (e : Oplog) :
  In e (forwarded l) <-> In e l /\ Operation e <> "n".
Proof.
  unfold forwarded, isNoop. rewrite filter_In.
  destruct (String.eqb_spec (Operation e) "n"); simpl; intuition congruence.
Qed.

Lemma append_empty_r (s : string) : s +++ "" = s.
Proof. induction s; simpl; congruence. Qed.

Lemma Contains_suffix (pre sub : string) : Contains (pre +++ sub) sub.
Proof. exists pre, "". now rewrite append_empty_r. Qed.

(** ** The steps keep the invariants *)

Lemma Next_some (it it' : mgo.Iter) (e : Oplog) :
  mgo.Next it = Some (e, it') ->
  mgo.pending it = e :: mgo.pending it'.
Proof.
  unfold mgo.Next. destruct (mgo.pending it); [discriminate|].
  intros H. inversion H; subst. reflexivity.
Qed.

Lemma reader_step_flow input s s' :
  flow input s -> reader_step s = Some s' -> flow input s'.
Proof.
  intros [consumed [Hin Hf]] H. unfold reader_step in H.
  unfold flow, appliedOps, batches, unflushed, offered in *.
  destruct (pc (reader s)) eqn:Hpc; try discriminate.
  - destruct (mgo.Next (tail (reader s))) as [[e it]|] eqn:Hn.
    + apply Next_some in Hn.
      destruct (Operation e =? "n")%string eqn:Hop;
        injection H as <-; simpl;
        exists (consumed ++ [e]);
        (split; [rewrite Hin, Hn, <- app_assoc; reflexivity|]);
        rewrite forwarded_app, <- Hf;
        unfold forwarded, isNoop; simpl; rewrite Hop; simpl;
        rewrite <- !app_assoc; reflexivity.
    + destruct (mgo.Err (tail (reader s)));
        injection H as <-; simpl;
        exists consumed; (split; [assumption|]); exact Hf.
  - injection H as <-; simpl.
    exists consumed. split; [assumption|]. exact Hf.
Qed.

Lemma hand_step_flow input s s' :
  flow input s -> hand_step s = Some s' -> flow input s'.
Proof.
  intros [consumed [Hin Hf]] H. unfold hand_step in H.
  unfold flow, appliedOps, batches, unflushed, offered in *.
  destruct (at_ (main s)) eqn:Hat; try discriminate.
  destruct (pc (reader s)) eqn:Hpc; try discriminate.
  exists consumed.
  destruct (len (opsToApply (main s) ++ [oplogEntry (reader s)]) >=? maxSize);
    injection H as <-; simpl; (split; [assumption|]); rewrite <- Hf.
  - rewrite concat_snd_app1, app_nil_r. reflexivity.
  - rewrite app_nil_r. reflexivity.
Qed.

Lemma tick_step_flow input s s' :
  flow input s -> tick_step s = Some s' -> flow input s'.
Proof.
  intros [consumed [Hin Hf]] H. unfold tick_step in H.
  unfold flow, appliedOps, batches, unflushed in *.
  destruct (at_ (main s)) eqn:Hat; try discriminate.
  destruct (len (opsToApply (main s)) =? 0); injection H as <-.
  - exists consumed. rewrite Hat. now split.
  - exists consumed. simpl. split; [assumption|].
    rewrite concat_snd_app1, <- Hf. now rewrite <- app_assoc.
Qed.

Lemma reply_step_flow input o s s' :
  flow input s -> reply_step o s = Some s' -> flow input s'.
Proof.
  intros [consumed [Hin Hf]] H. unfold reply_step in H.
  unfold flow, appliedOps, batches, unflushed in *.
  exists consumed.
  destruct (at_ (main s)) eqn:Hat; try discriminate;
    destruct o as [msg|r]; simpl in H;
    try destruct (Ok r); simpl in H;
    injection H as <-; simpl; (split; [assumption|]); exact Hf.
Qed.

Lemma step_flow input ev s s' :
  flow input s -> step ev s = Some s' -> flow input s'.
Proof.
  destruct ev; simpl;
    eauto using reader_step_flow, hand_step_flow, tick_step_flow,
      reply_step_flow.
Qed.

(** The reader never touches the coordinator or the destination. *)
Lemma reader_step_frame s s' :
  reader_step s = Some s' -> main s' = main s /\ dest s' = dest s.
Proof.
  unfold reader_step. intros H.
  destruct (pc (reader s)); try discriminate.
  - destruct (mgo.Next (tail (reader s))) as [[e it]|].
    + destruct (Operation e =? "n")%string; injection H as <-; now split.
    + destruct (mgo.Err (tail (reader s))); injection H as <-; now split.
  - injection H as <-; now split.
Qed.

Lemma Forall_app1 {A} (P : A -> Prop) (l : list A) (x : A) :
  Forall P l -> P x -> Forall P (l ++ [x]).
Proof. intros Hl Hx. apply Forall_app. split; [assumption | now constructor]. Qed.

Lemma step_coord ev s s' :
  coord_ok s -> Forall batch_ok (calls (dest s)) -> step ev s = Some s' ->
  coord_ok s' /\ Forall batch_ok (calls (dest s')).
Proof.
  intros Hc Hb H. destruct ev; simpl in H.
  - (* the goroutine *)
    apply reader_step_frame in H as [Hm Hd].
    unfold coord_ok in *. rewrite Hm, Hd. now split.
  - (* the channel case *)
    unfold hand_step in H. unfold coord_ok in Hc.
    destruct (at_ (main s)) eqn:Hat; try discriminate.
    destruct (pc (reader s)); try discriminate.
    destruct Hc as [Hlt [Hlen Hq]].
    pose proof (len_app1 (opsToApply (main s)) (oplogEntry (reader s))) as Hl.
    destruct (Z.geb_spec (len (opsToApply (main s) ++ [oplogEntry (reader s)]))
                maxSize) as [Hge|Hlt'];
      injection H as <-; unfold coord_ok; simpl.
    + split; [exists (calls (dest s)); now repeat split|].
      apply Forall_app1; [assumption|]. unfold batch_ok; simpl. lia.
    + now repeat split.
  - (* the timer case *)
    unfold tick_step in H. unfold coord_ok in Hc.
    destruct (at_ (main s)) eqn:Hat; try discriminate.
    destruct Hc as [Hlt [Hlen Hq]].
    destruct (Z.eqb_spec (len (opsToApply (main s))) 0) as [Hz|Hnz];
      injection H as <-.
    + unfold coord_ok. rewrite Hat. now repeat split.
    + unfold coord_ok; simpl.
      split; [exists (calls (dest s)); now repeat split|].
      apply Forall_app1; [assumption|]. unfold batch_ok; simpl.
      pose proof (len_nonneg (opsToApply (main s))). lia.
  - (* toSession.Run returns *)
    unfold reply_step in H. unfold coord_ok in Hc.
    destruct (at_ (main s)) eqn:Hat; try discriminate;
      destruct Hc as [cs0 [Hcalls [Hlen Hq]]];
      destruct o as [msg|r]; simpl in H;
      try (destruct (Ok r) eqn:Hok; simpl in H);
      injection H as <-; unfold coord_ok; simpl;
      (split; [|assumption]).
    all: try (eexists cs0, _, (replies (dest s)), _, _;
              repeat split; try eassumption; try reflexivity;
              simpl; rewrite ?Hok; reflexivity).
    all: rewrite Hcalls, !len_app1, Hlen; repeat split;
      try (unfold len, maxSize; simpl; lia);
      apply Forall_app1; try assumption; unfold quiet; simpl;
      now rewrite Hok.
Qed.

Lemma Inv_step input ev s s' :
  Inv input s -> step ev s = Some s' -> Inv input s'.
Proof.
  intros [Hf Hc Hb] H.
  destruct (step_coord ev s s' Hc Hb H) as [Hc' Hb'].
  constructor; eauto using step_flow.
Qed.

Lemma Inv_streaming (it : mgo.Iter) : Inv (mgo.pending it) (streaming it).
Proof.
  constructor.
  - exists []. split; reflexivity.
  - unfold coord_ok; simpl. repeat split; try constructor.
  - constructor.
Qed.

Lemma Inv_run input evs : forall s s',
  Inv input s -> run evs s = Some s' -> Inv input s'.
Proof.
  induction evs as [|ev evs IH]; simpl; intros s s' Hi H.
  - now injection H as <-.
  - destruct (step ev s) as [s1|] eqn:Hs; [|discriminate].
    eauto using Inv_step.
Qed.

(** Every state a schedule leads to from the entry of the loop. *)
Lemma Inv_reachable it evs s :
  run evs (streaming it) = Some s -> Inv (mgo.pending it) s.
Proof. apply Inv_run, Inv_streaming. Qed.

(** Once [Run] has returned only the goroutine can still move, and it
    leaves the coordinator and the destination as they are. *)
Lemma returned_step ev s s' r :
  at_ (main s) = CReturned r -> step ev s = Some s' ->
  main s' = main s /\ dest s' = dest s.
Proof.
  intros Hat H. destruct ev; simpl in H.
  - now apply reader_step_frame.
  - unfold hand_step in H. now rewrite Hat in H.
  - unfold tick_step in H. now rewrite Hat in H.
  - unfold reply_step in H. now rewrite Hat in H.
Qed.

Lemma returned_run evs : forall s s' r,
  at_ (main s) = CReturned r -> run evs s = Some s' ->
  main s' = main s /\ dest s' = dest s.
Proof.
  induction evs as [|ev evs IH]; simpl; intros s s' r Hat H.
  - injection H as <-. now split.
  - destruct (step ev s) as [s1|] eqn:Hs; [|discriminate].
    destruct (returned_step _ _ _ _ Hat Hs) as [Hm Hd].
    assert (Hat1 : at_ (main s1) = CReturned r) by now rewrite Hm.
    destruct (IH _ _ _ Hat1 H) as [Hm' Hd']. split; congruence.
Qed.

Lemma inFlight_bounds s : coord_ok s -> 0 <= inFlight s <= 1.
Proof.
  unfold coord_ok, inFlight. destruct (at_ (main s)).
  - intros [_ [Hl _]]. lia.
  - intros [cs [Hc [Hl _]]]. rewrite Hc, len_app1. lia.
  - intros [cs [Hc [Hl _]]]. rewrite Hc, len_app1. lia.
  - intros [cs [why [rs [o [m [Hc [Hr [Hl _]]]]]]]].
    rewrite Hc, Hr, !len_app1. lia.
Qed.

Lemma fatal_cases o m :
  fatal o = Some m ->
  (exists msg, o = RunErr msg /\ m = "error applying ops: " +++ msg)
  \/ (exists r, o = RunReply r /\ Ok r = false
                /\ m = "server gave error applying ops: " +++ ErrMsg r).
Proof.
  destruct o as [msg|r]; simpl.
  - intros H. injection H as <-. left. now exists msg.
  - destruct (Ok r) eqn:Hok; [discriminate|].
    intros H. injection H as <-. right. now exists r.
Qed.

(** The buffer is never empty while a call is out or after [Run] has
    returned. *)
Lemma empty_buffer_selects input s :
  Inv input s -> opsToApply (main s) = [] -> at_ (main s) = CSelect.
Proof.
  intros [_ Hc Hb] He. unfold coord_ok in Hc. rewrite He in Hc.
  destruct (at_ (main s)); [reflexivity|exfalso..].
  - destruct Hc as [cs [Hcalls _]]. rewrite Hcalls in Hb.
    apply Forall_app in Hb as [_ Hb]. inversion Hb as [|? ? Hx _]; subst.
    unfold batch_ok, len in Hx; simpl in Hx. lia.
  - destruct Hc as [cs [Hcalls _]]. rewrite Hcalls in Hb.
    apply Forall_app in Hb as [_ Hb]. inversion Hb as [|? ? Hx _]; subst.
    unfold batch_ok, len, maxSize in Hx; simpl in Hx. lia.
  - destruct Hc as [cs [why [rs [o [m [Hcalls _]]]]]]. rewrite Hcalls in Hb.
    apply Forall_app in Hb as [_ Hb]. inversion Hb as [|? ? Hx _]; subst.
    unfold batch_ok, len, maxSize in Hx; simpl in Hx.
    destruct why; simpl in Hx; lia.
Qed.

Example scenario_batches :
  option_map batches
    (run Scenario.whole
       (streaming (Scenario.cursor
          [Scenario.op1; Scenario.op2; Scenario.noop; Scenario.op3])))
  = Some [[Scenario.op1; Scenario.op2]; [Scenario.op3]].
Proof. vm_compute. reflexivity. Qed.

(** ** Order, loss and duplication *)

(** C1. When the source holds no no-op, the entries sent in applyOps
    commands, then those still buffered, then the one offered on the
    channel, then those not read yet, are the input sequence itself: no
    entry is lost, repeated or moved. Once nothing is held back the
    batches concatenate to the whole input. At any time at most one
    call is out. *)
Theorem batches_concat_is_input (it : mgo.Iter) (evs : list event) (s : sys) :
  Forall (fun e => Operation e <> "n") (mgo.pending it) ->
  run evs (streaming it) = Some s ->
  mgo.pending it
    = appliedOps s ++ unflushed s ++ offered s
        ++ mgo.pending (tail (reader s))
  /\ (mgo.pending (tail (reader s)) = [] -> offered s = [] ->
      unflushed s = [] -> List.concat (batches s) = mgo.pending it)
  /\ 0 <= inFlight s <= 1.
Proof.
  intros Hall Hrun.
  destruct (Inv_reachable _ _ _ Hrun) as [[consumed [Hin Hf]] Hc _].
  assert (Hcons : forwarded consumed = consumed).
  { apply forwarded_all. rewrite Hin in Hall.
    now apply Forall_app in Hall as [Hall _]. }
  rewrite Hcons in Hf.
  assert (Heq : mgo.pending it
                = appliedOps s ++ unflushed s ++ offered s
                    ++ mgo.pending (tail (reader s))).
  { rewrite Hin at 1. rewrite <- Hf. now rewrite <- !app_assoc. }
  split; [exact Heq|]. split; [|now apply inFlight_bounds].
  intros Hp Ho Hu. rewrite Heq, Hp, Ho, Hu, !app_nil_r. reflexivity.
Qed.

Lemma batches_concat_is_input_witness :
  exists s,
    run Scenario.whole_plain
      (streaming (Scenario.cursor [Scenario.op1; Scenario.op2; Scenario.op3]))
    = Some s
    /\ List.concat (batches s) = [Scenario.op1; Scenario.op2; Scenario.op3].
Proof.
  eexists. split; [vm_compute; reflexivity|].
  apply (batches_concat_is_input
           (Scenario.cursor [Scenario.op1; Scenario.op2; Scenario.op3])
           Scenario.whole_plain).
  - repeat constructor; discriminate.
  - vm_compute; reflexivity.
  - reflexivity.
  - reflexivity.
  - reflexivity.
Defined.

(** ** No-ops *)

Lemma skip_noop s e it' :
  pc (reader s) = PNext -> mgo.Next (tail (reader s)) = Some (e, it') ->
  Operation e = "n" ->
  exists s', step Reader s = Some s'
    /\ pc (reader s') = PNext /\ tail (reader s') = it'
    /\ main s' = main s /\ dest s' = dest s.
Proof.
  intros Hpc Hn Hop. simpl. unfold reader_step. rewrite Hpc, Hn, Hop. simpl.
  eexists. split; [reflexivity|]. simpl. now repeat split.
Qed.

(** C2. An entry whose operation is the no-op code is dropped by the
    goroutine where it is read: nothing reaches the channel, the buffer
    or the destination. No applyOps command ever carries one, and what
    went out, is buffered or is offered is the source read so far with
    its no-ops left out, in the order of the source. *)
Theorem noops_never_applied (it : mgo.Iter) (evs : list event) (s : sys) :
  run evs (streaming it) = Some s ->
  (forall e it', pc (reader s) = PNext ->
     mgo.Next (tail (reader s)) = Some (e, it') -> Operation e = "n" ->
     exists s', step Reader s = Some s'
       /\ offered s' = [] /\ main s' = main s /\ dest s' = dest s)
  /\ (forall b e, In b (batches s) -> In e b -> Operation e <> "n")
  /\ exists consumed,
       mgo.pending it = consumed ++ mgo.pending (tail (reader s))
       /\ appliedOps s ++ unflushed s ++ offered s
          = filter (fun e => negb (Operation e =? "n")%string) consumed.
Proof.
  intros Hrun.
  destruct (Inv_reachable _ _ _ Hrun) as [[consumed [Hin Hf]] _ _].
  split; [|split].
  - intros e it' Hpc Hn Hop.
    destruct (skip_noop s e it' Hpc Hn Hop) as [s' [Hs [Hpc' [_ [Hm Hd]]]]].
    exists s'. unfold offered. rewrite Hpc'. now repeat split.
  - intros b e Hb He.
    assert (Hin' : In e (forwarded consumed)).
    { rewrite <- Hf. apply in_or_app. left. unfold appliedOps.
      apply in_concat. now exists b. }
    now apply forwarded_In in Hin'.
  - exists consumed. split; [assumption|]. exact Hf.
Qed.

Lemma noops_never_applied_witness :
  exists s,
    run Scenario.whole
      (streaming (Scenario.cursor
         [Scenario.op1; Scenario.op2; Scenario.noop; Scenario.op3]))
    = Some s
    /\ forall b e, In b (batches s) -> In e b -> Operation e <> "n".
Proof.
  eexists. split; [vm_compute; reflexivity|].
  apply (noops_never_applied
           (Scenario.cursor
              [Scenario.op1; Scenario.op2; Scenario.noop; Scenario.op3])
           Scenario.whole).
  vm_compute; reflexivity.
Defined.

(** ** Batch sizes *)

(** C3. Every batch sent in an applyOps command holds at least one and at
    most 10000 entries, and one sent from the channel case of the select
    (the size trigger) holds exactly 10000. *)
Theorem batch_sizes (it : mgo.Iter) (evs : list event) (s : sys)
    (why : trigger) (b : list Oplog) :
  run evs (streaming it) = Some s ->
  In (why, b) (calls (dest s)) ->
  b <> [] /\ 1 <= len b <= 10000 /\ (why = BySize -> len b = 10000).
Proof.
  intros Hrun Hin.
  destruct (Inv_reachable _ _ _ Hrun) as [_ _ Hb].
  rewrite Forall_forall in Hb. specialize (Hb _ Hin).
  unfold batch_ok, maxSize in Hb. simpl in Hb.
  assert (Hlen : 1 <= len b <= 10000 /\ (why = BySize -> len b = 10000)).
  { destruct why; [split; [lia | discriminate] | split; [lia | auto]]. }
  split; [|exact Hlen].
  intros ->. unfold len in Hlen. simpl in Hlen. lia.
Qed.

Lemma batch_sizes_witness :
  exists s,
    run Scenario.first_flush
      (streaming (Scenario.cursor
         [Scenario.op1; Scenario.op2; Scenario.noop; Scenario.op3]))
    = Some s
    /\ 1 <= len [Scenario.op1; Scenario.op2] <= 10000.
Proof.
  eexists. split; [vm_compute; reflexivity|].
  eapply (batch_sizes
            (Scenario.cursor
               [Scenario.op1; Scenario.op2; Scenario.noop; Scenario.op3])
            Scenario.first_flush _ ByTimer [Scenario.op1; Scenario.op2]).
  - vm_compute; reflexivity.
  - simpl. left. reflexivity.
Defined.

(** The size trigger at work: 10000 entries handed over with no tick in
    between go out as one call of 10000, sent by the channel case. *)
Example size_trigger_fires :
  option_map (fun s => map (fun c => (fst c, len (snd c))) (calls (dest s)))
    (run (List.concat (repeat [Reader; Hand; Reader] (Z.to_nat 10000)))
       (streaming (Scenario.cursor (repeat Scenario.op1 (Z.to_nat 10000)))))
  = Some [(BySize, 10000)].
Proof. vm_compute. reflexivity. Qed.

(** ** The timer with nothing buffered *)

(** C6. A tick taken while the buffer is empty changes nothing: the state
    after it is the state before it, with no call added. *)
Theorem empty_tick_is_idle (it : mgo.Iter) (evs : list event) (s : sys) :
  run evs (streaming it) = Some s ->
  opsToApply (main s) = [] ->
  step Tick s = Some s.
Proof.
  intros Hrun He.
  pose proof (empty_buffer_selects _ _ (Inv_reachable _ _ _ Hrun) He) as Hat.
  simpl. unfold tick_step. rewrite Hat, He. reflexivity.
Qed.

Lemma empty_tick_is_idle_witness :
  exists s,
    run Scenario.first_flush
      (streaming (Scenario.cursor
         [Scenario.op1; Scenario.op2; Scenario.noop; Scenario.op3]))
    = Some s
    /\ step Tick s = Some s.
Proof.
  eexists. split; [vm_compute; reflexivity|].
  apply (empty_tick_is_idle
           (Scenario.cursor
              [Scenario.op1; Scenario.op2; Scenario.noop; Scenario.op3])
           Scenario.first_flush).
  - vm_compute; reflexivity.
  - reflexivity.
Defined.

(** ** Leaving the loop *)

Lemma reader_exit s :
  pc (reader s) = PNext -> mgo.pending (tail (reader s)) = [] ->
  exists s', step Reader s = Some s'
    /\ pc (reader s') = PExit /\ main s' = main s /\ dest s' = dest s.
Proof.
  intros Hpc Hp. simpl. unfold reader_step, mgo.Next. rewrite Hpc, Hp.
  destruct (mgo.Err (tail (reader s)));
    (eexists; split; [reflexivity|]; simpl; now repeat split).
Qed.

Lemma tick_goes_on s :
  at_ (main s) = CSelect ->
  exists s', step Tick s = Some s' /\ forall r, at_ (main s') <> CReturned r.
Proof.
  intros Hat. simpl. unfold tick_step. rewrite Hat.
  destruct (len (opsToApply (main s)) =? 0);
    (eexists; split; [reflexivity|]); intros r; simpl;
    [rewrite Hat|]; discriminate.
Qed.

(** C8. From the entry of the loop on, [Run] has returned only if the
    last outcome of [toSession.Run] was a failure, all earlier ones being
    successes, and what it returns is the error made from that failure,
    never nil. The cursor running dry, with or without a read error, only
    ends the goroutine: the coordinator and the destination are left as
    they are, and a loop waiting in its select still takes the next tick
    and stays in the loop. *)
Theorem loop_exits_only_on_apply_failure (it : mgo.Iter) (evs : list event)
    (s : sys) :
  run evs (streaming it) = Some s ->
  (forall r, at_ (main s) = CReturned r ->
     exists m o rs,
       r = Some m /\ replies (dest s) = rs ++ [o] /\ Forall quiet rs
       /\ ((exists msg, o = RunErr msg /\ m = "error applying ops: " +++ msg)
           \/ (exists rp, o = RunReply rp /\ Ok rp = false
                 /\ m = "server gave error applying ops: " +++ ErrMsg rp)))
  /\ (pc (reader s) = PNext -> mgo.pending (tail (reader s)) = [] ->
      exists s', step Reader s = Some s' /\ pc (reader s') = PExit
                 /\ main s' = main s /\ dest s' = dest s)
  /\ (pc (reader s) = PExit -> at_ (main s) = CSelect ->
      exists s', step Tick s = Some s'
                 /\ forall r, at_ (main s') <> CReturned r).
Proof.
  intros Hrun.
  destruct (Inv_reachable _ _ _ Hrun) as [_ Hc _].
  split; [|split].
  - intros r Hat. unfold coord_ok in Hc. rewrite Hat in Hc.
    destruct Hc as [cs [why [rs [o [m [_ [Hr [_ [Hq [Hf ->]]]]]]]]]].
    exists m, o, rs. repeat split; try assumption.
    now apply fatal_cases.
  - apply reader_exit.
  - intros _. apply tick_goes_on.
Qed.

Lemma loop_exits_only_on_apply_failure_witness :
  exists s,
    run (Scenario.whole ++ [Hand; Reader; Reader; Tick; Reply Scenario.rejected])
      (streaming (Scenario.cursor
         [Scenario.op1; Scenario.op2; Scenario.noop; Scenario.op3;
          Scenario.op1]))
    = Some s
    /\ forall r, at_ (main s) = CReturned r ->
         exists m o rs,
           r = Some m /\ replies (dest s) = rs ++ [o] /\ Forall quiet rs
           /\ ((exists msg, o = RunErr msg
                            /\ m = "error applying ops: " +++ msg)
               \/ (exists rp, o = RunReply rp /\ Ok rp = false
                     /\ m = "server gave error applying ops: "
                              +++ ErrMsg rp)).
Proof.
  eexists. split; [vm_compute; reflexivity|].
  apply (loop_exits_only_on_apply_failure
           (Scenario.cursor
              [Scenario.op1; Scenario.op2; Scenario.noop; Scenario.op3;
               Scenario.op1])
           (Scenario.whole ++ [Hand; Reader; Reader; Tick; Reply Scenario.rejected])).
  vm_compute; reflexivity.
Defined.

(** ** A failed apply *)

(** C4. When [toSession.Run] fails in transport or the reply has ok false,
    [Run] returns at that step, with "error applying ops: " followed by
    the transport error or "server gave error applying ops: " followed by
    the errmsg of the reply, which the error therefore contains. The step
    sends nothing, and whatever happens later leaves the calls sent and
    the returned error as they are: no further call, no second try. *)
Theorem apply_failure_is_fatal (s : sys) (o : RunOutcome) :
  applying s ->
  match o with RunErr _ => True | RunReply r => Ok r = false end ->
  exists s' m,
    step (Reply o) s = Some s'
    /\ at_ (main s') = CReturned (Some m)
    /\ m = match o with
           | RunErr msg => "error applying ops: " +++ msg
           | RunReply r => "server gave error applying ops: " +++ ErrMsg r
           end
    /\ (forall r, o = RunReply r -> Contains m (ErrMsg r))
    /\ calls (dest s') = calls (dest s)
    /\ forall evs s'', run evs s' = Some s'' ->
         calls (dest s'') = calls (dest s)
         /\ at_ (main s'') = CReturned (Some m).
Proof.
  intros Happ Hfail.
  assert (Hstep : exists s',
            step (Reply o) s = Some s'
            /\ at_ (main s')
               = CReturned (Some match o with
                   | RunErr msg => "error applying ops: " +++ msg
                   | RunReply r =>
                       "server gave error applying ops: " +++ ErrMsg r
                   end)
            /\ calls (dest s') = calls (dest s)).
  { simpl. unfold reply_step.
    destruct Happ as [Hat|[e Hat]]; rewrite Hat;
      destruct o as [msg|r]; try rewrite Hfail; simpl;
      (eexists; split; [reflexivity|]; simpl; now split). }
  destruct Hstep as [s' [Hs [Hat' Hcalls]]].
  exists s'. eexists. split; [exact Hs|]. split; [exact Hat'|].
  split; [reflexivity|]. split; [|split; [exact Hcalls|]].
  - intros r ->. apply Contains_suffix.
  - intros evs s'' Hrun.
    destruct (returned_run _ _ _ _ Hat' Hrun) as [Hm Hd].
    rewrite Hd, Hm. now split.
Qed.

Lemma apply_failure_is_fatal_witness :
  exists s,
    run [Reader; Hand; Tick] (streaming (Scenario.cursor [Scenario.op1]))
    = Some s
    /\ exists s' m,
         step (Reply Scenario.rejected) s = Some s'
         /\ at_ (main s') = CReturned (Some m)
         /\ m = "server gave error applying ops: duplicate key"
         /\ (forall r, Scenario.rejected = RunReply r -> Contains m (ErrMsg r))
         /\ calls (dest s') = calls (dest s)
         /\ forall evs s'', run evs s' = Some s'' ->
              calls (dest s'') = calls (dest s)
              /\ at_ (main s'') = CReturned (Some m).
Proof.
  eexists. split; [vm_compute; reflexivity|].
  apply (apply_failure_is_fatal _ Scenario.rejected).
  - left. reflexivity.
  - reflexivity.
Defined.

(** Of the errmsg "duplicate key" the returned error keeps the words. *)
Example duplicate_key_is_reported :
  exists s',
    run [Reader; Hand; Tick; Reply Scenario.rejected; Reader; Reader]
      (streaming (Scenario.cursor [Scenario.op1; Scenario.op2]))
    = Some s'
    /\ at_ (main s')
       = CReturned (Some "server gave error applying ops: duplicate key")
    /\ Contains "server gave error applying ops: duplicate key"
         "duplicate key"
    /\ batches s' = [[Scenario.op1]].
Proof.
  eexists. split; [vm_compute; reflexivity|].
  split; [reflexivity|]. split; [|reflexivity].
  apply (Contains_suffix "server gave error applying ops: " "duplicate key").
Qed.

(** ** The buffer after a flush *)

(** The buffer is not cleared on every flush attempt: a rejected batch
    stays in [opsToApply], since [Run] returns before line 145. *)
Lemma buffer_kept_when_apply_fails :
  ~ (forall it evs s o s',
       run evs (streaming it) = Some s ->
       step (Reply o) s = Some s' ->
       opsToApply (main s') = []).
Proof.
  intros H.
  specialize (H (Scenario.cursor [Scenario.op1]) [Reader; Hand; Tick]
                Scenario.awaiting Scenario.rejected _ eq_refl eq_refl).
  discriminate H.
Qed.

(** C9, as the code has it. When the apply call of a flush succeeds the
    buffer is cleared (length zero) and the loop is back in its select
    with nothing held; when it fails [Run] returns at once, the buffer
    still holds the batch, and nothing changes it afterwards. *)
Theorem buffer_cleared_after_successful_flush (s : sys) (o : RunOutcome) :
  applying s ->
  exists s',
    step (Reply o) s = Some s'
    /\ (forall r, o = RunReply r -> Ok r = true ->
          opsToApply (main s') = [] /\ len (opsToApply (main s')) = 0
          /\ at_ (main s') = CSelect /\ unflushed s' = [])
    /\ (match o with RunErr _ => True | RunReply r => Ok r = false end ->
          opsToApply (main s') = opsToApply (main s)
          /\ (exists m, at_ (main s') = CReturned (Some m))
          /\ forall evs s'', run evs s' = Some s'' -> main s'' = main s').
Proof.
  intros Happ. simpl. unfold reply_step.
  destruct Happ as [Hat|[e Hat]]; rewrite Hat;
    destruct o as [msg|r]; try destruct (Ok r) eqn:Hok; simpl;
    (eexists; split; [reflexivity|]; split;
     [ intros r' Hr Hok';
       first [ discriminate Hr
             | injection Hr as <-; congruence
             | unfold unflushed; simpl; now repeat split ]
     | intros Hfail;
       first [ discriminate Hfail
             | simpl; split; [reflexivity|]; split; [eexists; reflexivity|];
               intros evs s'' Hrun;
               eapply returned_run in Hrun; [apply Hrun | reflexivity] ] ]).
Qed.

Lemma buffer_cleared_after_successful_flush_witness :
  exists s,
    run [Reader; Hand; Tick] (streaming (Scenario.cursor [Scenario.op1]))
    = Some s
    /\ exists s',
         step (Reply Scenario.applied) s = Some s'
         /\ opsToApply (main s') = [].
Proof.
  eexists. split; [vm_compute; reflexivity|].
  destruct (buffer_cleared_after_successful_flush
              Scenario.awaiting Scenario.applied (or_introl eq_refl))
    as [s' [Hs [Hok _]]].
  exists s'. split; [exact Hs|].
  exact (proj1 (Hok _ eq_refl eq_refl)).
Defined.

(** ** What the filter lets through *)

Lemma forward_other s e it' :
  pc (reader s) = PNext -> mgo.Next (tail (reader s)) = Some (e, it') ->
  Operation e <> "n" ->
  exists s', step Reader s = Some s'
    /\ pc (reader s') = PSend /\ oplogEntry (reader s') = e
    /\ main s' = main s /\ dest s' = dest s.
Proof.
  intros Hpc Hn Hop. simpl. unfold reader_step. rewrite Hpc, Hn.
  destruct (String.eqb_spec (Operation e) "n"); [contradiction|].
  eexists. split; [reflexivity|]. simpl. now repeat split.
Qed.

Lemma hand_appends s :
  at_ (main s) = CSelect -> pc (reader s) = PSend ->
  exists s', step Hand s = Some s'
    /\ opsToApply (main s') = opsToApply (main s) ++ [oplogEntry (reader s)]
    /\ pc (reader s') = PCount.
Proof.
  intros Hat Hpc. simpl. unfold hand_step. rewrite Hat, Hpc.
  destruct (len (opsToApply (main s) ++ [oplogEntry (reader s)]) >=? maxSize);
    (eexists; split; [reflexivity|]; simpl; now split).
Qed.

(** C10. The goroutine drops an entry exactly when its operation is "n".
    An entry with any other operation, whatever the code, is offered on
    the channel as it was read, and the coordinator appends that very
    entry to its buffer. Hence every such entry read so far is among
    those sent, buffered or offered, all fields as read, and once nothing
    is held back it sits in one of the batches sent. *)
Theorem other_kinds_pass_through (it : mgo.Iter) (evs : list event) (s : sys) :
  run evs (streaming it) = Some s ->
  (forall e it',
     pc (reader s) = PNext -> mgo.Next (tail (reader s)) = Some (e, it') ->
     exists s',
       step Reader s = Some s'
       /\ (Operation e = "n" -> offered s' = [])
       /\ (Operation e <> "n" ->
           offered s' = [e]
           /\ (at_ (main s') = CSelect ->
               exists s'', step Hand s' = Some s''
                 /\ opsToApply (main s'') = opsToApply (main s) ++ [e])))
  /\ exists consumed,
       mgo.pending it = consumed ++ mgo.pending (tail (reader s))
       /\ forall e, In e consumed -> Operation e <> "n" ->
            In e (appliedOps s ++ unflushed s ++ offered s)
            /\ (unflushed s = [] -> offered s = [] ->
                exists b, In b (batches s) /\ In e b).
Proof.
  intros Hrun. split.
  - intros e it' Hpc Hn.
    destruct (String.eqb_spec (Operation e) "n") as [Hop|Hop].
    + destruct (skip_noop s e it' Hpc Hn Hop) as [s' [Hs [Hpc' _]]].
      exists s'. split; [exact Hs|]. split; [|contradiction].
      intros _. unfold offered. now rewrite Hpc'.
    + destruct (forward_other s e it' Hpc Hn Hop)
        as [s' [Hs [Hpc' [He [Hm _]]]]].
      exists s'. split; [exact Hs|]. split; [contradiction|].
      intros _. split; [unfold offered; now rewrite Hpc', He|].
      intros Hat. destruct (hand_appends s' Hat Hpc') as [s'' [Hs' [Hops _]]].
      exists s''. split; [exact Hs'|]. now rewrite Hops, Hm, He.
  - destruct (Inv_reachable _ _ _ Hrun) as [[consumed [Hin Hf]] _ _].
    exists consumed. split; [exact Hin|].
    intros e He Hop.
    assert (Hfw : In e (appliedOps s ++ unflushed s ++ offered s)).
    { rewrite Hf. apply forwarded_In. now split. }
    split; [exact Hfw|].
    intros Hu Ho. rewrite Hu, Ho, !app_nil_r in Hfw.
    unfold appliedOps in Hfw. apply in_concat in Hfw as [b [Hb Heb]].
    now exists b.
Qed.

Lemma other_kinds_pass_through_witness :
  exists s,
    run [Reader; Hand; Reader; Reader; Hand; Reader; Reader; Reader; Tick;
         Reply Scenario.applied]
      (streaming (Scenario.cursor
         [Scenario.entry 1 "N"; Scenario.entry 2 "noop"; Scenario.entry 3 "n"]))
    = Some s
    /\ batches s = [[Scenario.entry 1 "N"; Scenario.entry 2 "noop"]]
    /\ exists consumed,
         [Scenario.entry 1 "N"; Scenario.entry 2 "noop"; Scenario.entry 3 "n"]
         = consumed ++ mgo.pending (tail (reader s))
         /\ forall e, In e consumed -> Operation e <> "n" ->
              In e (appliedOps s ++ unflushed s ++ offered s)
              /\ (unflushed s = [] -> offered s = [] ->
                  exists b, In b (batches s) /\ In e b).
Proof.
  eexists. split; [vm_compute; reflexivity|]. split; [reflexivity|].
  apply (other_kinds_pass_through
           (Scenario.cursor
              [Scenario.entry 1 "N"; Scenario.entry 2 "noop";
               Scenario.entry 3 "n"])
           [Reader; Hand; Reader; Reader; Hand; Reader; Reader; Reader; Tick;
            Reply Scenario.applied]).
  vm_compute; reflexivity.
Defined.

(** ** Every source can be drained *)

Lemma run_app evs1 evs2 : forall s,
  run (evs1 ++ evs2) s
  = match run evs1 s with Some s' => run evs2 s' | None => None end.
Proof.
  induction evs1 as [|ev evs1 IH]; simpl; intros s; [reflexivity|].
  destruct (step ev s); [apply IH | reflexivity].
Qed.

Lemma run_then ev evs s s1 s' :
  step ev s = Some s1 -> run evs s1 = Some s' -> run (ev :: evs) s = Some s'.
Proof. intros H1 H2. simpl. now rewrite H1. Qed.

(** From any point where the goroutine is about to read and the loop is
    waiting, some schedule in which every call succeeds reads the cursor
    dry and flushes all of it. *)
Lemma drain_from (l : list Oplog) : forall s,
  mgo.pending (tail (reader s)) = l ->
  pc (reader s) = PNext -> at_ (main s) = CSelect ->
  exists evs s', run evs s = Some s' /\ drained s'.
Proof.
  induction l as [|e rest IH]; intros s Hp Hpc Hat.
  - (* the cursor is dry: the goroutine leaves, a tick flushes the rest *)
    destruct (reader_exit s Hpc Hp) as [s1 [Hs1 [Hpc1 [Hm1 Hd1]]]].
    assert (Hp1 : mgo.pending (tail (reader s1)) = []).
    { simpl in Hs1. unfold reader_step, mgo.Next in Hs1.
      rewrite Hpc, Hp in Hs1.
      destruct (mgo.Err (tail (reader s))); injection Hs1 as <-; exact Hp. }
    destruct (opsToApply (main s1)) as [|x ops] eqn:Hops.
    + exists [Reader], s1.
      split; [eapply run_then; [exact Hs1 | reflexivity]|].
      unfold drained. rewrite Hm1, Hat. rewrite Hm1 in Hops. now repeat split.
    + eexists [Reader; Tick; Reply (RunReply {| Ok := true; ErrMsg := "" |})],
        _.
      split.
      * eapply run_then; [exact Hs1|].
        simpl. unfold tick_step. rewrite Hm1, Hat. rewrite Hm1 in Hops.
        rewrite Hops. simpl. reflexivity.
      * unfold drained. simpl. now repeat split.
  - (* one more entry *)
    assert (Hn : mgo.Next (tail (reader s))
                 = Some (e, {| mgo.pending := rest;
                               mgo.iterErr := mgo.iterErr (tail (reader s));
                               mgo.replay := mgo.replay (tail (reader s));
                               mgo.timeout := mgo.timeout (tail (reader s)) |})).
    { unfold mgo.Next. now rewrite Hp. }
    destruct (String.eqb_spec (Operation e) "n") as [Hop|Hop].
    + destruct (skip_noop s e _ Hpc Hn Hop) as [s1 [Hs1 [Hpc1 [Ht1 [Hm1 _]]]]].
      destruct (IH s1) as [evs [s' [Hrun Hdr]]];
        [now rewrite Ht1 | exact Hpc1 | now rewrite Hm1 |].
      exists (Reader :: evs), s'. split; [|exact Hdr].
      eapply run_then; eassumption.
    + assert (Hs1 : exists s1,
                step Reader s = Some s1 /\ pc (reader s1) = PSend
                /\ mgo.pending (tail (reader s1)) = rest
                /\ at_ (main s1) = CSelect).
      { simpl. unfold reader_step. rewrite Hpc, Hn.
        destruct (String.eqb_spec (Operation e) "n"); [contradiction|].
        eexists. split; [reflexivity|]. simpl. now repeat split. }
      destruct Hs1 as [s1 [Hs1 [Hpc1 [Hp1 Hat1]]]].
      assert (Hs2 : exists evs2 s2,
                run evs2 s1 = Some s2 /\ pc (reader s2) = PNext
                /\ mgo.pending (tail (reader s2)) = rest
                /\ at_ (main s2) = CSelect).
      { destruct (len (opsToApply (main s1) ++ [oplogEntry (reader s1)])
                    >=? maxSize) eqn:Hfull.
        - eexists [Hand; Reply (RunReply {| Ok := true; ErrMsg := "" |});
                   Reader], _.
          split.
          + simpl. unfold hand_step. rewrite Hat1, Hpc1, Hfull. simpl.
            reflexivity.
          + simpl. now repeat split.
        - eexists [Hand; Reader], _. split.
          + simpl. unfold hand_step. rewrite Hat1, Hpc1, Hfull. simpl.
            reflexivity.
          + simpl. now repeat split. }
      destruct Hs2 as [evs2 [s2 [Hrun2 [Hpc2 [Hp2 Hat2]]]]].
      destruct (IH s2 Hp2 Hpc2 Hat2) as [evs [s' [Hrun Hdr]]].
      exists (Reader :: evs2 ++ evs), s'. split; [|exact Hdr].
      eapply run_then; [exact Hs1|]. now rewrite run_app, Hrun2.
Qed.

(** X10. For every source a complete run exists: a schedule without a
    failed call after which the batches sent are the source without its
    no-ops. *)
Theorem complete_run_exists (it : mgo.Iter) :
  exists evs s,
    run evs (streaming it) = Some s /\ drained s
    /\ List.concat (batches s) = forwarded (mgo.pending it).
Proof.
  destruct (drain_from (mgo.pending it) (streaming it) eq_refl eq_refl eq_refl)
    as [evs [s [Hrun Hdr]]].
  exists evs, s. split; [exact Hrun|]. split; [exact Hdr|].
  destruct (Inv_reachable _ _ _ Hrun) as [[consumed [Hin Hf]] _ _].
  destruct Hdr as [Hp [Hpc [Hat Hops]]].
  unfold unflushed, offered, appliedOps in Hf.
  rewrite Hat, Hops, Hpc, !app_nil_r in Hf.
  rewrite Hp, app_nil_r in Hin. now rewrite Hin.
Qed.

(** ** The threshold of the tailing query *)

Lemma int64_small (x : Z) : - 2 ^ 63 <= x < 2 ^ 63 -> int64 x = x.
Proof. intros H. unfold int64. rewrite Z.mod_small; lia. Qed.

Lemma uint64_small (x : Z) : 0 <= x < 2 ^ 64 -> uint64 x = x.
Proof. intros H. unfold uint64. now apply Z.mod_small. Qed.

(** Whatever the clock and the options, the 32 low bits are zero. *)
Lemma thresholdShifted_low_bits (now : time.Time) (so : SourceOptions) :
  thresholdShifted now so mod 2 ^ 32 = 0.
Proof.
  unfold thresholdShifted, uint64. rewrite Z.shiftl_mul_pow2 by lia.
  replace (2 ^ 64) with (2 ^ 32 * 2 ^ 32) at 2 by reflexivity.
  rewrite Z.rem_mul_r by lia.
  rewrite Z.mod_mul by lia. rewrite Z.add_0_l.
  rewrite Z.mul_comm. apply Z.mod_mul. lia.
Qed.

Lemma thresholdAsUnix_in_range (now : time.Time) (so : SourceOptions) :
  - 2 ^ 63 < Seconds so * time.Second < 2 ^ 63 ->
  thresholdAsUnix now so = time.Unix now - Seconds so.
Proof.
  intros H. unfold thresholdAsUnix, secondsInPast, time.Unix, time.Add.
  simpl. rewrite (int64_small (Seconds so * time.Second)) by lia.
  rewrite int64_small by lia.
  replace (time.nanos now + - (Seconds so * time.Second))
    with (time.nanos now + (- Seconds so) * time.Second) by lia.
  rewrite Z.div_add by (unfold time.Second; lia). lia.
Qed.

(** C5. With the look-back and the clock in the range of the machine
    integers, the threshold is the Unix time of now minus N seconds,
    shifted left by 32 bits: its high part is that time in seconds, its
    32 counter bits are zero, and the cursor holds exactly the entries of
    the oplog whose timestamp is at least the threshold, in their order.
    For N = 60 at time 1700000100 this is 1700000040 shifted by 32. *)
Theorem threshold_is_shifted_seconds (now : time.Time) (so : SourceOptions)
    (oplog : mgo.Collection) :
  - 2 ^ 63 < Seconds so * time.Second < 2 ^ 63 ->
  0 <= time.Unix now - Seconds so < 2 ^ 31 ->
  let threshold := Z.shiftl (time.Unix now - Seconds so) 32 in
  oplogQuery now so = mgo.TsGte threshold
  /\ Z.shiftr threshold 32 = time.Unix now - Seconds so
  /\ Z.land threshold (Z.ones 32) = 0
  /\ mgo.pending (buildTailingCursor now oplog so)
     = filter (fun e => threshold <=? Timestamp e) (mgo.documents oplog)
  /\ forall e, In e (mgo.pending (buildTailingCursor now oplog so))
               <-> In e (mgo.documents oplog) /\ threshold <= Timestamp e.
Proof.
  intros HN Hu threshold.
  assert (Hq : oplogQuery now so = mgo.TsGte threshold).
  { unfold oplogQuery, bson.MongoTimestamp, thresholdShifted, threshold.
    rewrite thresholdAsUnix_in_range by assumption.
    rewrite (uint64_small (time.Unix now - Seconds so)) by lia.
    rewrite Z.shiftl_mul_pow2 by lia.
    rewrite uint64_small by lia. rewrite int64_small by lia. reflexivity. }
  assert (Hp : mgo.pending (buildTailingCursor now oplog so)
               = filter (fun e => threshold <=? Timestamp e)
                   (mgo.documents oplog)).
  { unfold buildTailingCursor, mgo.Tail, mgo.LogReplay, mgo.Find. simpl.
    rewrite Hq. reflexivity. }
  split; [exact Hq|]. split; [|split; [|split; [exact Hp|]]].
  - unfold threshold. rewrite Z.shiftr_shiftl_l by lia.
    now rewrite Z.sub_diag, Z.shiftl_0_r.
  - unfold threshold. rewrite Z.land_ones by lia.
    rewrite Z.shiftl_mul_pow2 by lia. apply Z.mod_mul. lia.
  - intros e. rewrite Hp, filter_In, Z.leb_le. reflexivity.
Qed.

Lemma threshold_is_shifted_seconds_witness :
  oplogQuery (time.FromUnix 1700000100)
    {| From := "db1:27017"; OplogNS := "local.oplog.rs"; Seconds := 60 |}
  = mgo.TsGte (Z.shiftl 1700000040 32).
Proof.
  apply (threshold_is_shifted_seconds
           (time.FromUnix 1700000100)
           {| From := "db1:27017"; OplogNS := "local.oplog.rs";
              Seconds := 60 |}
           {| mgo.documents := []; mgo.failure := None |}).
  - vm_compute. split; reflexivity.
  - vm_compute. split; [discriminate | reflexivity].
Defined.

(** ** A namespace without a collection *)

(** C7. When the splitter reports an error for the configured namespace,
    or gives an empty collection part, [Run] returns an error (that of the
    splitter, or "the oplog namespace must specify a collection") having
    done nothing at all: no session was asked of either provider, no
    cursor was opened, nothing was logged. *)
Theorem namespace_without_collection_is_refused
    (split : string -> string * string * option string)
    (mo : MongoOplog) (now : time.Time)
    (oplogDB oplogColl : string) (err : option string) :
  split (OplogNS (sourceOptions mo)) = (oplogDB, oplogColl, err) ->
  err <> None \/ oplogColl = "" ->
  Run_start split mo now
  = ([], Refused match err with
                 | Some e => e
                 | None => "the oplog namespace must specify a collection"
                 end).
Proof.
  intros Hs Hbad. unfold Run_start. rewrite Hs.
  destruct err as [e|]; [reflexivity|].
  destruct Hbad as [Hbad| ->]; [congruence|]. reflexivity.
Qed.

Lemma namespace_without_collection_is_refused_witness :
  Run_start splitOnly (Setup.tool "local") (time.FromUnix 1700000100)
  = ([], Refused "the oplog namespace must specify a collection").
Proof.
  apply (namespace_without_collection_is_refused splitOnly
           (Setup.tool "local") (time.FromUnix 1700000100) "local" "" None).
  - reflexivity.
  - right. reflexivity.
Defined.

(** With a full namespace the sessions are asked for, the destination
    first, and the loop is entered on the cursor of the oplog. *)
Example full_namespace_connects :
  Run_start splitOnly (Setup.tool "local.oplog.rs") (time.FromUnix 160)
  = ([Logvf log.DebugLow "using oplog namespace `local.oplog.rs`";
      AskSession Destination;
      SetSocketTimeout Destination 0;
      Logvf log.DebugLow "successfully connected to destination server `db2:27017`";
      AskSession Source;
      SetSocketTimeout Source 0;
      Logvf log.DebugLow "successfully connected to source server `db1:27017`";
      SetModeEventual Source true;
      OpenTail "local" "oplog.rs"],
     Entered (streaming (Scenario.cursor
                [Scenario.op1; Scenario.op2; Scenario.noop; Scenario.op3]))).
Proof. vm_compute. reflexivity. Qed.

(** * Further properties of the streaming phase *)

Lemma run_invariant (P : sys -> Prop) :
  (forall ev s s', P s -> step ev s = Some s' -> P s') ->
  forall evs s s', P s -> run evs s = Some s' -> P s'.
Proof.
  intros Hstep. induction evs as [|ev evs IH]; simpl; intros s s' HP H.
  - now injection H as <-.
  - destruct (step ev s) as [s1|] eqn:Hs; [|discriminate]. eauto.
Qed.

(** ** When the source has run dry *)

Lemma drained_step ev s s' : drained s -> step ev s = Some s' -> ev = Tick /\ s' = s.
Proof.
  intros [Hp [Hpc [Hat Hops]]] H. destruct ev; simpl in H.
  - unfold reader_step in H. now rewrite Hpc in H.
  - unfold hand_step in H. now rewrite Hat, Hpc in H.
  - unfold tick_step in H. rewrite Hat, Hops in H. simpl in H.
    injection H as <-. now split.
  - unfold reply_step in H. now rewrite Hat in H.
Qed.

(** X1. Once the cursor has given everything, the goroutine has left and
    the buffer is flushed, the loop only turns: the one event still
    enabled is the tick, it changes nothing, and so no schedule ever makes
    [Run] return. *)
Theorem drained_loop_never_returns (evs : list event) (s s' : sys) :
  drained s -> run evs s = Some s' ->
  s' = s /\ Forall (eq Tick) evs /\ forall r, at_ (main s') <> CReturned r.
Proof.
  intros Hd. revert s'. induction evs as [|ev evs IH]; simpl; intros s' H.
  - injection H as <-. split; [reflexivity|]. split; [constructor|].
    intros r. destruct Hd as [_ [_ [Hat _]]]. rewrite Hat. discriminate.
  - destruct (step ev s) as [s1|] eqn:Hs; [|discriminate].
    destruct (drained_step _ _ _ Hd Hs) as [-> ->].
    destruct (IH _ H) as [-> [Hall Hr]]. now repeat split; [constructor|].
Qed.

Example scenario_finishes :
  run Scenario.whole
    (streaming (Scenario.cursor
       [Scenario.op1; Scenario.op2; Scenario.noop; Scenario.op3]))
  = Some finished.
Proof. vm_compute. reflexivity. Qed.

Lemma drained_loop_never_returns_witness :
  run [Tick; Tick; Tick] finished = Some finished
  /\ Forall (eq Tick) [Tick; Tick; Tick].
Proof.
  assert (Hd : drained finished) by (repeat split).
  assert (H : run [Tick; Tick; Tick] finished = Some finished)
    by reflexivity.
  split; [exact H|].
  exact (proj1 (proj2 (drained_loop_never_returns _ _ _ Hd H))).
Defined.

(** ** How much the buffer holds *)

(** X2. The buffer never holds more than 10000 entries, and fewer than
    that whenever the loop waits in its select: the 10000th entry is sent
    off by the very step that appends it. *)
Theorem buffer_is_bounded (it : mgo.Iter) (evs : list event) (s : sys) :
  run evs (streaming it) = Some s ->
  len (opsToApply (main s)) <= 10000
  /\ (at_ (main s) = CSelect -> len (opsToApply (main s)) < 10000).
Proof.
  intros Hrun. destruct (Inv_reachable _ _ _ Hrun) as [_ Hc Hb].
  unfold coord_ok in Hc.
  assert (Hlast : forall cs why,
            calls (dest s) = cs ++ [(why, opsToApply (main s))] ->
            len (opsToApply (main s)) <= 10000).
  { intros cs why Hcalls. rewrite Hcalls in Hb.
    apply Forall_app in Hb as [_ Hb]. inversion Hb as [|? ? Hx _]; subst.
    unfold batch_ok, maxSize in Hx. simpl in Hx. destruct why; lia. }
  destruct (at_ (main s)) eqn:Hat.
  - destruct Hc as [Hlt _]. unfold maxSize in Hlt. split; [lia|]. intros _. lia.
  - destruct Hc as [cs [Hcalls _]]. split; [eauto | discriminate].
  - destruct Hc as [cs [Hcalls _]]. split; [eauto | discriminate].
  - destruct Hc as [cs [why [rs [o [m [Hcalls _]]]]]].
    split; [eauto | discriminate].
Qed.

Lemma buffer_is_bounded_witness :
  len (opsToApply (main finished)) <= 10000.
Proof.
  apply (buffer_is_bounded
           (Scenario.cursor
              [Scenario.op1; Scenario.op2; Scenario.noop; Scenario.op3])
           Scenario.whole finished).
  vm_compute; reflexivity.
Defined.

(** X3. A batch sent by the timer case always has fewer than 10000
    entries: a full buffer never waits for a tick. *)
Theorem timer_batches_are_partial (it : mgo.Iter) (evs : list event) (s : sys)
    (b : list Oplog) :
  run evs (streaming it) = Some s ->
  In (ByTimer, b) (calls (dest s)) ->
  len b < 10000.
Proof.
  intros Hrun Hin. destruct (Inv_reachable _ _ _ Hrun) as [_ _ Hb].
  rewrite Forall_forall in Hb. specialize (Hb _ Hin).
  unfold batch_ok, maxSize in Hb. simpl in Hb. lia.
Qed.

Lemma timer_batches_are_partial_witness :
  len [Scenario.op1; Scenario.op2] < 10000.
Proof.
  apply (timer_batches_are_partial
           (Scenario.cursor
              [Scenario.op1; Scenario.op2; Scenario.noop; Scenario.op3])
           Scenario.whole finished [Scenario.op1; Scenario.op2]).
  - vm_compute; reflexivity.
  - left. reflexivity.
Defined.

(** ** The running total *)

Lemma int64_idem_add (a b : Z) : int64 (int64 a + b) = int64 (a + b).
Proof.
  unfold int64.
  replace ((a + 2 ^ 63) mod 2 ^ 64 - 2 ^ 63 + b + 2 ^ 63)
    with ((a + 2 ^ 63) mod 2 ^ 64 + b) by lia.
  rewrite Zplus_mod_idemp_l. f_equal. f_equal. lia.
Qed.

Lemma received_send s p ops k :
  at_ (main s) = CSelect -> k <> CSelect ->
  forall why, received (send_applyOps s p ops why k) = appliedOps s ++ ops.
Proof.
  intros _ Hk why. unfold received, appliedOps, batches, unflushed. simpl.
  rewrite concat_snd_app1. destruct k; [contradiction|..]; now rewrite app_nil_r.
Qed.

Lemma step_count ev s s' :
  count_ok s -> step ev s = Some s' -> count_ok s'.
Proof.
  unfold count_ok. intros Hc H. destruct ev; simpl in H.
  - (* the goroutine *)
    unfold reader_step in H.
    unfold received, appliedOps, batches, unflushed, uncounted in *.
    destruct (pc (reader s)) eqn:Hpc; try discriminate.
    + destruct (mgo.Next (tail (reader s))) as [[e it]|].
      * destruct (Operation e =? "n")%string; injection H as <-; simpl;
          exact Hc.
      * destruct (mgo.Err (tail (reader s))); injection H as <-; simpl;
          exact Hc.
    + injection H as <-; simpl. rewrite Hc, int64_idem_add.
      now rewrite Z.sub_add, Z.sub_0_r.
  - (* the channel case *)
    unfold hand_step in H.
    destruct (at_ (main s)) eqn:Hat; try discriminate.
    destruct (pc (reader s)) eqn:Hpc; try discriminate.
    assert (Hr : received s = appliedOps s ++ opsToApply (main s)).
    { unfold received, unflushed. now rewrite Hat. }
    unfold uncounted in Hc. rewrite Hpc, Hr in Hc.
    destruct (len (opsToApply (main s) ++ [oplogEntry (reader s)]) >=? maxSize);
      injection H as <-.
    + rewrite received_send by (assumption || discriminate).
      unfold uncounted. simpl. rewrite Hc, app_assoc, len_app1.
      f_equal. lia.
    + unfold received, appliedOps, batches, unflushed, uncounted in *. simpl.
      rewrite Hc, app_assoc, len_app1. f_equal. lia.
  - (* the timer case *)
    unfold tick_step in H.
    destruct (at_ (main s)) eqn:Hat; try discriminate.
    assert (Hr : received s = appliedOps s ++ opsToApply (main s)).
    { unfold received, unflushed. now rewrite Hat. }
    destruct (len (opsToApply (main s)) =? 0); injection H as <-;
      [exact Hc|].
    rewrite received_send by (assumption || discriminate).
    unfold uncounted in *. simpl. now rewrite Hc, Hr.
  - (* toSession.Run returns *)
    unfold reply_step in H.
    unfold received, appliedOps, batches, unflushed, uncounted in *.
    destruct (at_ (main s)) eqn:Hat; try discriminate;
      destruct o as [msg|r]; simpl in H;
      try destruct (Ok r); simpl in H;
      injection H as <-; simpl; exact Hc.
Qed.

(** X4. [opCount] is the number of entries the coordinator has taken from
    the channel, less one while the goroutine stands between its send and
    its increment (as an int, it wraps at 64 bits). No-ops are not
    counted. *)
Theorem opCount_counts_handoffs (it : mgo.Iter) (evs : list event) (s : sys) :
  run evs (streaming it) = Some s ->
  opCount (reader s) = int64 (len (received s) - uncounted s)
  /\ (len (received s) < 2 ^ 63 ->
      opCount (reader s) = len (received s) - uncounted s).
Proof.
  intros Hrun.
  assert (Hc : count_ok s).
  { apply (run_invariant count_ok step_count evs (streaming it)); [|exact Hrun].
    reflexivity. }
  split; [exact Hc|]. intros Hlt. rewrite Hc. apply int64_small.
  pose proof (len_nonneg (received s)). unfold uncounted.
  destruct (pc (reader s)); lia.
Qed.

Lemma opCount_counts_handoffs_witness : opCount (reader finished) = 3.
Proof.
  apply (proj2 (opCount_counts_handoffs
                  (Scenario.cursor
                     [Scenario.op1; Scenario.op2; Scenario.noop; Scenario.op3])
                  Scenario.whole finished ltac:(vm_compute; reflexivity))).
  vm_compute. reflexivity.
Defined.

(** ** The progress line *)

Lemma step_size_entry ev s s' :
  size_entry_ok s -> step ev s = Some s' -> size_entry_ok s'.
Proof.
  unfold size_entry_ok. intros Hc H. destruct ev; simpl in H.
  - apply reader_step_frame in H as [Hm _]. now rewrite Hm.
  - unfold hand_step in H.
    destruct (at_ (main s)); try discriminate.
    destruct (pc (reader s)); try discriminate.
    destruct (len (opsToApply (main s) ++ [oplogEntry (reader s)]) >=? maxSize);
      injection H as <-; simpl; [apply last_last | exact I].
  - unfold tick_step in H.
    destruct (at_ (main s)) eqn:Hat; try discriminate.
    destruct (len (opsToApply (main s)) =? 0); injection H as <-; simpl;
      [now rewrite Hat | exact I].
  - unfold reply_step in H.
    destruct (at_ (main s)); try discriminate;
      destruct o as [msg|r]; simpl in H;
      try destruct (Ok r); simpl in H;
      injection H as <-; simpl; exact I.
Qed.

(** X5. After a call that succeeded exactly one line is logged, the same
    in both cases of the select: the size of the batch just sent, the
    running total as the goroutine then has it, and the seconds of the
    timestamp of the last entry of that batch. *)
Theorem progress_line_reports_batch (it : mgo.Iter) (evs : list event)
    (s : sys) (r : ApplyOpsResponse) :
  run evs (streaming it) = Some s ->
  applying s -> Ok r = true ->
  exists s' cs why b,
    step (Reply (RunReply r)) s = Some s'
    /\ calls (dest s) = cs ++ [(why, b)]
    /\ out s'
       = out s
           ++ [(log.Always,
                fmt_int (len b) +++ " oplogs have been applied, total: "
                  +++ fmt_int (opCount (reader s)) +++ ". Last: "
                  +++ fmt_int (Z.shiftr (Timestamp (last b zeroOplog)) 32))].
Proof.
  intros Hrun Happ Hok.
  assert (Hse : size_entry_ok s).
  { apply (run_invariant size_entry_ok step_size_entry evs (streaming it));
      [exact I | exact Hrun]. }
  destruct (Inv_reachable _ _ _ Hrun) as [_ Hc _].
  unfold coord_ok in Hc. unfold size_entry_ok in Hse.
  simpl. unfold reply_step, applied_line.
  destruct Happ as [Hat|[e Hat]]; rewrite Hat in *; rewrite Hok; simpl;
    destruct Hc as [cs [Hcalls _]];
    eexists _, cs, _, (opsToApply (main s));
    (split; [reflexivity|]); (split; [exact Hcalls|]); simpl;
    rewrite ?Hse; reflexivity.
Qed.

Lemma progress_line_reports_batch_witness :
  exists s' cs why b,
    step (Reply Scenario.applied) Scenario.awaiting = Some s'
    /\ calls (dest Scenario.awaiting) = cs ++ [(why, b)]
    /\ out s'
       = out Scenario.awaiting
           ++ [(log.Always,
                fmt_int (len b) +++ " oplogs have been applied, total: "
                  +++ fmt_int (opCount (reader Scenario.awaiting))
                  +++ ". Last: "
                  +++ fmt_int (Z.shiftr (Timestamp (last b zeroOplog)) 32))].
Proof.
  apply (progress_line_reports_batch
           (Scenario.cursor [Scenario.op1]) [Reader; Hand; Tick]
           Scenario.awaiting {| Ok := true; ErrMsg := "" |}).
  - reflexivity.
  - left. reflexivity.
  - reflexivity.
Defined.

(** The line of the scenario's first flush. The total it shows is the
    goroutine's count at that moment, which may trail the batch. *)
Example progress_line_of_first_flush :
  option_map (fun s => last (out s) (log.Always, ""))
    (run Scenario.first_flush
       (streaming (Scenario.cursor
          [Scenario.op1; Scenario.op2; Scenario.noop; Scenario.op3])))
  = Some (log.Always, "2 oplogs have been applied, total: 2. Last: 101").
Proof. vm_compute. reflexivity. Qed.

(** ** While a call is out, and after [Run] has returned *)

Lemma applying_step ev s s' :
  applying s -> (forall o, ev <> Reply o) -> step ev s = Some s' ->
  ev = Reader /\ main s' = main s /\ dest s' = dest s.
Proof.
  intros Happ Hev H. destruct ev; simpl in H.
  - split; [reflexivity|]. now apply reader_step_frame.
  - unfold hand_step in H. destruct Happ as [Hat|[e Hat]]; now rewrite Hat in H.
  - unfold tick_step in H. destruct Happ as [Hat|[e Hat]]; now rewrite Hat in H.
  - now destruct (Hev o).
Qed.

(** X6. While [toSession.Run] has not come back nothing is taken from the
    channel and no tick is served: in a schedule without an outcome only
    the goroutine moves, and the buffer, the calls sent and the answers
    received stay as they are. *)
Theorem nothing_received_during_apply (evs : list event) (s s' : sys) :
  applying s ->
  (forall o, ~ In (Reply o) evs) ->
  run evs s = Some s' ->
  Forall (eq Reader) evs /\ main s' = main s /\ dest s' = dest s.
Proof.
  revert s. induction evs as [|ev evs IH]; simpl; intros s Happ Hno H.
  - injection H as <-. now repeat split.
  - destruct (step ev s) as [s1|] eqn:Hs; [|discriminate].
    assert (Hev : forall o, ev <> Reply o).
    { intros o ->. apply (Hno o). now left. }
    destruct (applying_step _ _ _ Happ Hev Hs) as [-> [Hm Hd]].
    assert (Happ1 : applying s1) by (unfold applying in *; now rewrite Hm).
    destruct (IH s1 Happ1) as [Hall [Hm' Hd']];
      [intros o Ho; apply (Hno o); now right | exact H |].
    split; [now constructor|]. split; congruence.
Qed.

Lemma nothing_received_during_apply_witness :
  exists s',
    run [Reader] Scenario.awaiting = Some s'
    /\ main s' = main Scenario.awaiting.
Proof.
  eexists. split; [vm_compute; reflexivity|].
  eapply (nothing_received_during_apply [Reader] Scenario.awaiting).
  - left. reflexivity.
  - intros o [Ho|[]]. discriminate Ho.
  - vm_compute; reflexivity.
Defined.

(** X9. Once [Run] has returned, an entry the goroutine offers on the
    channel is never taken: with the goroutine in its send no event at all
    is enabled, so it stays blocked there for good. *)
Theorem send_blocks_forever_after_return (s : sys) (r : option string) :
  at_ (main s) = CReturned r -> pc (reader s) = PSend ->
  (forall ev, step ev s = None)
  /\ forall evs, evs <> [] -> run evs s = None.
Proof.
  intros Hat Hpc.
  assert (Hno : forall ev, step ev s = None).
  { intros ev. destruct ev; simpl.
    - unfold reader_step. now rewrite Hpc.
    - unfold hand_step. now rewrite Hat.
    - unfold tick_step. now rewrite Hat.
    - unfold reply_step. now rewrite Hat. }
  split; [exact Hno|].
  intros [|ev evs] Hne; [contradiction|]. simpl. now rewrite Hno.
Qed.

Example scenario_strands :
  run [Reader; Hand; Tick; Reply Scenario.rejected; Reader; Reader]
    (streaming (Scenario.cursor [Scenario.op1; Scenario.op2]))
  = Some stranded.
Proof. vm_compute. reflexivity. Qed.

Lemma send_blocks_forever_after_return_witness :
  step Hand stranded = None /\ run [Reader; Tick] stranded = None.
Proof.
  destruct (send_blocks_forever_after_return stranded
              (Some "server gave error applying ops: duplicate key")
              eq_refl eq_refl) as [Hstep Hrun].
  split; [apply Hstep | apply Hrun; discriminate].
Defined.

(** ** What the destination gets in the end *)

Lemma drained_applied (it : mgo.Iter) (evs : list event) (s : sys) :
  run evs (streaming it) = Some s -> drained s ->
  appliedOps s = forwarded (mgo.pending it).
Proof.
  intros Hrun [Hp [Hpc [Hat Hops]]].
  destruct (Inv_reachable _ _ _ Hrun) as [[consumed [Hin Hf]] _ _].
  unfold unflushed, offered in Hf.
  rewrite Hat, Hops, Hpc, !app_nil_r in Hf.
  rewrite Hp, app_nil_r in Hin. now rewrite Hin.
Qed.

(** X7. When and how often the timer fires decides where the batches are
    cut, not what is sent: two complete runs over the same source, under
    whatever schedules, hand the destination the same entries in the same
    order, namely the source without its no-ops. *)
Theorem applied_sequence_independent_of_timing (it : mgo.Iter)
    (evs1 evs2 : list event) (s1 s2 : sys) :
  run evs1 (streaming it) = Some s1 -> drained s1 ->
  run evs2 (streaming it) = Some s2 -> drained s2 ->
  List.concat (batches s1) = List.concat (batches s2)
  /\ List.concat (batches s1)
     = filter (fun e => negb (Operation e =? "n")%string) (mgo.pending it).
Proof.
  intros H1 Hd1 H2 Hd2.
  pose proof (drained_applied _ _ _ H1 Hd1) as E1.
  pose proof (drained_applied _ _ _ H2 Hd2) as E2.
  unfold appliedOps in *. split; [congruence | exact E1].
Qed.

Lemma applied_sequence_independent_of_timing_witness :
  batches finished = [[Scenario.op1; Scenario.op2]; [Scenario.op3]]
  /\ batches finished_early = [[Scenario.op1]; [Scenario.op2; Scenario.op3]]
  /\ List.concat (batches finished) = List.concat (batches finished_early).
Proof.
  split; [reflexivity|]. split; [reflexivity|].
  refine (proj1 (applied_sequence_independent_of_timing
                   (Scenario.cursor
                      [Scenario.op1; Scenario.op2; Scenario.noop;
                       Scenario.op3])
                   Scenario.whole early_tick finished finished_early
                   _ _ _ _)).
  - vm_compute; reflexivity.
  - repeat split.
  - vm_compute; reflexivity.
  - repeat split.
Defined.

(** X8. When [Run] has returned, the batch that failed is the last one
    sent and is still what the buffer holds, every call was answered, and
    what was sent, failed batch included, is an initial part of the source
    without its no-ops: no entry behind the failed batch went out. *)
Theorem failed_batch_is_last (it : mgo.Iter) (evs : list event) (s : sys)
    (r : option string) :
  run evs (streaming it) = Some s ->
  at_ (main s) = CReturned r ->
  (exists cs why, calls (dest s) = cs ++ [(why, opsToApply (main s))])
  /\ opsToApply (main s) <> []
  /\ len (replies (dest s)) = len (calls (dest s))
  /\ exists rest, forwarded (mgo.pending it) = appliedOps s ++ rest.
Proof.
  intros Hrun Hat.
  destruct (Inv_reachable _ _ _ Hrun) as [[consumed [Hin Hf]] Hc Hb].
  unfold coord_ok in Hc. rewrite Hat in Hc.
  destruct Hc as [cs [why [rs [o [m [Hcalls [Hr [Hl _]]]]]]]].
  split; [now exists cs, why|]. split; [|split].
  - intros He. rewrite Hcalls, He in Hb.
    apply Forall_app in Hb as [_ Hb]. inversion Hb as [|? ? Hx _]; subst.
    unfold batch_ok, len, maxSize in Hx. simpl in Hx. destruct why; simpl in Hx; lia.
  - rewrite Hcalls, Hr, !len_app1. lia.
  - exists (offered s ++ forwarded (mgo.pending (tail (reader s)))).
    rewrite Hin, forwarded_app, <- Hf. unfold unflushed. rewrite Hat.
    simpl. now rewrite <- app_assoc.
Qed.

Lemma failed_batch_is_last_witness :
  exists rest,
    forwarded [Scenario.op1; Scenario.op2] = appliedOps stranded ++ rest.
Proof.
  apply (failed_batch_is_last
           (Scenario.cursor [Scenario.op1; Scenario.op2])
           [Reader; Hand; Tick; Reply Scenario.rejected; Reader; Reader]
           stranded (Some "server gave error applying ops: duplicate key")).
  - vm_compute; reflexivity.
  - reflexivity.
Defined.

(** * Further properties of the start-up *)

(** X11. When the destination cannot be reached [Run] returns "error
    connecting to destination db: " with the provider's error, and the
    source is not even asked for a session: the destination was asked
    once, and nothing was opened that would have to be closed. *)
Theorem destination_failure_stops_before_source
    (split : string -> string * string * option string)
    (mo : MongoOplog) (now : time.Time)
    (oplogDB oplogColl e : string) :
  split (OplogNS (sourceOptions mo)) = (oplogDB, oplogColl, None) ->
  oplogColl <> "" ->
  GetSession (SessionProviderTo mo) = inr e ->
  exists trace,
    Run_start split mo now
    = (trace, Refused ("error connecting to destination db: " +++ e))
    /\ In (AskSession Destination) trace
    /\ ~ In (AskSession Source) trace
    /\ forall ep, ~ In (CloseSession ep) trace.
Proof.
  intros Hs Hc Hto. unfold Run_start. rewrite Hs, Hto.
  destruct (String.eqb_spec oplogColl ""); [contradiction|].
  eexists. split; [reflexivity|]. simpl. split; [now right; left|].
  split.
  - intros [H|[H|[]]]; discriminate.
  - intros ep [H|[H|[]]]; discriminate.
Qed.

(** X12. When the source cannot be reached [Run] returns "error
    connecting to source db: " with the provider's error, and the session
    to the destination, obtained before, is closed on the way out: the
    last thing done is that close. No cursor is opened. *)
Theorem source_failure_closes_destination
    (split : string -> string * string * option string)
    (mo : MongoOplog) (now : time.Time)
    (oplogDB oplogColl e : string) (toSession : mgo.Session) :
  split (OplogNS (sourceOptions mo)) = (oplogDB, oplogColl, None) ->
  oplogColl <> "" ->
  GetSession (SessionProviderTo mo) = inl toSession ->
  GetSession (SessionProviderFrom mo) = inr e ->
  exists before,
    Run_start split mo now
    = (before ++ [CloseSession Destination],
       Refused ("error connecting to source db: " +++ e))
    /\ In (AskSession Destination) before
    /\ In (AskSession Source) before
    /\ (forall d c, ~ In (OpenTail d c) before)
    /\ forall ep, ~ In (CloseSession ep) before.
Proof.
  intros Hs Hc Hto Hfrom. unfold Run_start. rewrite Hs, Hto, Hfrom.
  destruct (String.eqb_spec oplogColl ""); [contradiction|].
  eexists. split; [reflexivity|]. simpl.
  split; [now right; left|]. split; [now do 4 right; left|].
  split.
  - intros d c H. repeat (destruct H as [H|H]; [discriminate|]). exact H.
  - intros ep H. repeat (destruct H as [H|H]; [discriminate|]). exact H.
Qed.

(** X13. [Run] gets into its loop exactly when the namespace splits
    without error into a database and a non-empty collection and both
    providers give a session; the loop then starts, with nothing buffered
    and nothing sent, on the cursor built over that collection of the
    source. *)
Theorem loop_entered_iff_all_set
    (split : string -> string * string * option string)
    (mo : MongoOplog) (now : time.Time) (s : sys) :
  (exists trace, Run_start split mo now = (trace, Entered s))
  <-> exists oplogDB oplogColl toSession fromSession,
        split (OplogNS (sourceOptions mo)) = (oplogDB, oplogColl, None)
        /\ oplogColl <> ""
        /\ GetSession (SessionProviderTo mo) = inl toSession
        /\ GetSession (SessionProviderFrom mo) = inl fromSession
        /\ s = streaming
                 (buildTailingCursor now
                    (mgo.C fromSession oplogDB oplogColl) (sourceOptions mo)).
Proof.
  unfold Run_start.
  destruct (split (OplogNS (sourceOptions mo))) as [[oplogDB oplogColl] err].
  split.
  - intros [trace H].
    destruct err as [e|]; [discriminate|].
    destruct (String.eqb_spec oplogColl ""); [discriminate|].
    destruct (GetSession (SessionProviderTo mo)) as [toSession|e] eqn:Hto;
      [|discriminate].
    destruct (GetSession (SessionProviderFrom mo)) as [fromSession|e] eqn:Hfrom;
      [|discriminate].
    injection H as _ <-.
    exists oplogDB, oplogColl, toSession, fromSession. now repeat split.
  - intros [d [c [toS [fromS [Hs [Hc [Hto [Hfrom ->]]]]]]]].
    injection Hs as -> -> ->. rewrite Hto, Hfrom.
    destruct (String.eqb_spec c ""); [contradiction|].
    eexists. reflexivity.
Qed.

(** X14. Start-up and streaming together: when [Run] got into its loop
    and a run of the loop has read the cursor dry and flushed everything,
    the entries sent to the destination are those of the source's oplog
    collection that the tailing query selects, without the no-ops, in the
    order of the oplog. *)
Theorem whole_run_applies_selected_entries
    (split : string -> string * string * option string)
    (mo : MongoOplog) (now : time.Time) (trace : list action)
    (s0 s : sys) (evs : list event) :
  Run_start split mo now = (trace, Entered s0) ->
  run evs s0 = Some s -> drained s ->
  exists oplogDB oplogColl fromSession,
    split (OplogNS (sourceOptions mo)) = (oplogDB, oplogColl, None)
    /\ GetSession (SessionProviderFrom mo) = inl fromSession
    /\ List.concat (batches s)
       = filter (fun e => negb (Operation e =? "n")%string)
           (filter (mgo.selects (oplogQuery now (sourceOptions mo)))
              (mgo.documents (mgo.C fromSession oplogDB oplogColl))).
Proof.
  intros Hstart Hrun Hd.
  assert (Hent : exists trace, Run_start split mo now = (trace, Entered s0))
    by now exists trace.
  clear Hstart. revert Hent. unfold Run_start.
  destruct (split (OplogNS (sourceOptions mo))) as [[oplogDB oplogColl] err].
  intros [tr H].
  destruct err as [e|]; [discriminate|].
  destruct (String.eqb_spec oplogColl ""); [discriminate|].
  destruct (GetSession (SessionProviderTo mo)) as [toSession|e]; [|discriminate].
  destruct (GetSession (SessionProviderFrom mo)) as [fromSession|e] eqn:Hfrom;
    [|discriminate].
  injection H as _ <-.
  exists oplogDB, oplogColl, fromSession. split; [reflexivity|].
  split; [reflexivity|].
  exact (drained_applied _ _ _ Hrun Hd).
Qed.

(** * Further properties of the tailing query *)

Lemma uint64_range (x : Z) : 0 <= uint64 x < 2 ^ 64.
Proof. unfold uint64. apply Z.mod_pos_bound. lia. Qed.

Lemma int64_range (x : Z) : - 2 ^ 63 <= int64 x < 2 ^ 63.
Proof.
  unfold int64. pose proof (Z.mod_pos_bound (x + 2 ^ 63) (2 ^ 64)). lia.
Qed.

Lemma int64_of_unsigned (x : Z) :
  0 <= x < 2 ^ 64 ->
  int64 x = if x <? 2 ^ 63 then x else x - 2 ^ 64.
Proof.
  intros H. unfold int64. destruct (Z.ltb_spec x (2 ^ 63)).
  - rewrite Z.mod_small; lia.
  - replace (x + 2 ^ 63) with (x - 2 ^ 63 + 1 * 2 ^ 64) by lia.
    rewrite Z.mod_add by lia. rewrite Z.mod_small; lia.
Qed.

Lemma uint64_int64 (x : Z) : 0 <= x < 2 ^ 64 -> uint64 (int64 x) = x.
Proof.
  intros H. rewrite int64_of_unsigned by assumption. unfold uint64.
  destruct (Z.ltb_spec x (2 ^ 63)).
  - apply Z.mod_small. lia.
  - replace (x - 2 ^ 64) with (x + (-1) * 2 ^ 64) by lia.
    rewrite Z.mod_add by lia. apply Z.mod_small. lia.
Qed.

(** X15. Whatever the clock and the look-back, overflow included, the
    timestamp the query compares with is an int64 whose 32 counter bits
    are zero: the query bound always falls on a whole second. *)
Theorem query_bound_has_zero_counter (now : time.Time) (so : SourceOptions) :
  exists t,
    oplogQuery now so = mgo.TsGte t
    /\ - 2 ^ 63 <= t < 2 ^ 63
    /\ t mod 2 ^ 32 = 0.
Proof.
  exists (bson.MongoTimestamp (thresholdShifted now so)).
  split; [reflexivity|]. unfold bson.MongoTimestamp.
  split; [apply int64_range|].
  pose proof (thresholdShifted_low_bits now so) as Hlow.
  assert (Hr : 0 <= thresholdShifted now so < 2 ^ 64)
    by (unfold thresholdShifted; apply uint64_range).
  rewrite int64_of_unsigned by assumption.
  destruct (thresholdShifted now so <? 2 ^ 63); [exact Hlow|].
  replace (thresholdShifted now so - 2 ^ 64)
    with (thresholdShifted now so + (- 2 ^ 32) * 2 ^ 32) by lia.
  now rewrite Z.mod_add by lia.
Qed.

Lemma thresholdShifted_in_range (now : time.Time) (so : SourceOptions) :
  - 2 ^ 63 < Seconds so * time.Second < 2 ^ 63 ->
  0 <= time.Unix now - Seconds so < 2 ^ 32 ->
  thresholdShifted now so = Z.shiftl (time.Unix now - Seconds so) 32.
Proof.
  intros HN Hu. unfold thresholdShifted.
  rewrite thresholdAsUnix_in_range by assumption.
  rewrite (uint64_small (time.Unix now - Seconds so)) by lia.
  rewrite Z.shiftl_mul_pow2 by lia. apply uint64_small. lia.
Qed.

(** X16. Up to the year 2106 the bound keeps the bits of the shifted
    seconds: read as unsigned 64 bits it is the Unix time of now minus N
    seconds, shifted left by 32. From 2038 on (seconds at or above 2^31)
    the int64 the program handles is negative. *)
Theorem query_bound_bits (now : time.Time) (so : SourceOptions) :
  - 2 ^ 63 < Seconds so * time.Second < 2 ^ 63 ->
  0 <= time.Unix now - Seconds so < 2 ^ 32 ->
  exists t,
    oplogQuery now so = mgo.TsGte t
    /\ uint64 t = Z.shiftl (time.Unix now - Seconds so) 32
    /\ (t < 0 <-> 2 ^ 31 <= time.Unix now - Seconds so).
Proof.
  intros HN Hu.
  exists (bson.MongoTimestamp (thresholdShifted now so)).
  split; [reflexivity|]. unfold bson.MongoTimestamp.
  rewrite thresholdShifted_in_range by assumption.
  assert (Hr : 0 <= Z.shiftl (time.Unix now - Seconds so) 32 < 2 ^ 64)
    by (rewrite Z.shiftl_mul_pow2; lia).
  split; [now apply uint64_int64|].
  rewrite int64_of_unsigned by assumption.
  rewrite Z.shiftl_mul_pow2 in * by lia.
  destruct (Z.ltb_spec ((time.Unix now - Seconds so) * 2 ^ 32) (2 ^ 63)); lia.
Qed.

Lemma query_bound_bits_witness :
  exists t,
    oplogQuery (time.FromUnix 2200000060)
      {| From := "db1:27017"; OplogNS := "local.oplog.rs"; Seconds := 60 |}
    = mgo.TsGte t
    /\ uint64 t = Z.shiftl 2200000000 32
    /\ (t < 0 <-> 2 ^ 31 <= 2200000000).
Proof.
  apply (query_bound_bits (time.FromUnix 2200000060)
           {| From := "db1:27017"; OplogNS := "local.oplog.rs";
              Seconds := 60 |}).
  - vm_compute. split; reflexivity.
  - vm_compute. split; [discriminate | reflexivity].
Defined.

Lemma oplogQuery_in_range (now : time.Time) (so : SourceOptions) :
  - 2 ^ 63 < Seconds so * time.Second < 2 ^ 63 ->
  0 <= time.Unix now - Seconds so < 2 ^ 31 ->
  oplogQuery now so = mgo.TsGte (Z.shiftl (time.Unix now - Seconds so) 32).
Proof.
  intros HN Hu. unfold oplogQuery, bson.MongoTimestamp.
  rewrite thresholdShifted_in_range by lia.
  rewrite Z.shiftl_mul_pow2 by lia. now rewrite int64_small by lia.
Qed.

(** X17. A longer look-back never loses entries: with both look-backs in
    range, every entry the cursor delivers for the shorter one it also
    delivers for the longer one. *)
Theorem longer_lookback_selects_more (now : time.Time)
    (so1 so2 : SourceOptions) (oplog : mgo.Collection) (e : Oplog) :
  - 2 ^ 63 < Seconds so1 * time.Second < 2 ^ 63 ->
  - 2 ^ 63 < Seconds so2 * time.Second < 2 ^ 63 ->
  Seconds so1 <= Seconds so2 ->
  0 <= time.Unix now - Seconds so2 ->
  time.Unix now - Seconds so1 < 2 ^ 31 ->
  In e (mgo.pending (buildTailingCursor now oplog so1)) ->
  In e (mgo.pending (buildTailingCursor now oplog so2)).
Proof.
  intros H1 H2 Hle Hlo Hhi.
  unfold buildTailingCursor, mgo.Tail, mgo.LogReplay, mgo.Find. simpl.
  rewrite !oplogQuery_in_range by lia. unfold mgo.selects.
  rewrite !filter_In, !Z.leb_le, !Z.shiftl_mul_pow2 by lia.
  intros [Hin Hts]. split; [exact Hin|]. nia.
Qed.

(** X18. A look-back too long for an int64 of nanoseconds (from about 292
    years on) does not look further back: the product wraps, and the
    bound lands at or after the present second. *)
Theorem overlong_lookback_looks_ahead (now : time.Time) (so : SourceOptions) :
  2 ^ 63 < Seconds so * time.Second < 2 ^ 64 ->
  time.Unix now <= thresholdAsUnix now so.
Proof.
  intros H. unfold thresholdAsUnix, secondsInPast, time.Unix, time.Add. simpl.
  assert (E1 : int64 (Seconds so * time.Second)
               = Seconds so * time.Second - 2 ^ 64).
  { rewrite int64_of_unsigned by lia.
    destruct (Z.ltb_spec (Seconds so * time.Second) (2 ^ 63)); lia. }
  rewrite E1. rewrite int64_small by lia.
  apply Z.div_le_mono; [unfold time.Second; lia | lia].
Qed.

Lemma overlong_lookback_looks_ahead_witness :
  time.Unix (time.FromUnix 1700000100)
  <= thresholdAsUnix (time.FromUnix 1700000100)
       {| From := "db1:27017"; OplogNS := "local.oplog.rs";
          Seconds := 10000000000 |}.
Proof.
  apply (overlong_lookback_looks_ahead (time.FromUnix 1700000100)
           {| From := "db1:27017"; OplogNS := "local.oplog.rs";
              Seconds := 10000000000 |}).
  vm_compute. split; reflexivity.
Defined.

(** * The further properties at work *)

Lemma destination_failure_stops_before_source_witness :
  exists trace,
    Run_start splitOnly tool_without_destination (time.FromUnix 160)
    = (trace,
       Refused "error connecting to destination db: no reachable servers")
    /\ In (AskSession Destination) trace
    /\ ~ In (AskSession Source) trace
    /\ forall ep, ~ In (CloseSession ep) trace.
Proof.
  apply (destination_failure_stops_before_source splitOnly
           tool_without_destination (time.FromUnix 160)
           "local" "oplog.rs" "no reachable servers").
  - reflexivity.
  - discriminate.
  - reflexivity.
Defined.

Lemma source_failure_closes_destination_witness :
  exists before,
    Run_start splitOnly tool_without_source (time.FromUnix 160)
    = (before ++ [CloseSession Destination],
       Refused "error connecting to source db: no reachable servers")
    /\ In (AskSession Destination) before
    /\ In (AskSession Source) before
    /\ (forall d c, ~ In (OpenTail d c) before)
    /\ forall ep, ~ In (CloseSession ep) before.
Proof.
  apply (source_failure_closes_destination splitOnly
           tool_without_source (time.FromUnix 160)
           "local" "oplog.rs" "no reachable servers" Setup.server).
  - reflexivity.
  - discriminate.
  - reflexivity.
  - reflexivity.
Defined.

Lemma loop_entered_iff_all_set_witness :
  exists trace,
    Run_start splitOnly (Setup.tool "local.oplog.rs") (time.FromUnix 160)
    = (trace,
       Entered (streaming
                  (buildTailingCursor (time.FromUnix 160)
                     (mgo.C Setup.server "local" "oplog.rs")
                     (sourceOptions (Setup.tool "local.oplog.rs"))))).
Proof.
  apply (proj2 (loop_entered_iff_all_set splitOnly
                  (Setup.tool "local.oplog.rs") (time.FromUnix 160) _)).
  exists "local", "oplog.rs", Setup.server, Setup.server.
  repeat split. discriminate.
Defined.

Lemma whole_run_applies_selected_entries_witness :
  exists oplogDB oplogColl fromSession,
    splitOnly "local.oplog.rs" = (oplogDB, oplogColl, None)
    /\ GetSession (SessionProviderFrom (Setup.tool "local.oplog.rs"))
       = inl fromSession
    /\ List.concat (batches finished)
       = filter (fun e => negb (Operation e =? "n")%string)
           (filter
              (mgo.selects
                 (oplogQuery (time.FromUnix 160)
                    (sourceOptions (Setup.tool "local.oplog.rs"))))
              (mgo.documents (mgo.C fromSession oplogDB oplogColl))).
Proof.
  eapply (whole_run_applies_selected_entries splitOnly
            (Setup.tool "local.oplog.rs") (time.FromUnix 160) _
            (streaming (Scenario.cursor
               [Scenario.op1; Scenario.op2; Scenario.noop; Scenario.op3]))
            finished Scenario.whole).
  - vm_compute. reflexivity.
  - vm_compute. reflexivity.
  - repeat split.
Defined.

Lemma longer_lookback_selects_more_witness :
  In Scenario.op3
    (mgo.pending
       (buildTailingCursor (time.FromUnix 163) Setup.oplog
          {| From := "db1:27017"; OplogNS := "local.oplog.rs";
             Seconds := 63 |})).
Proof.
  apply (longer_lookback_selects_more (time.FromUnix 163)
           {| From := "db1:27017"; OplogNS := "local.oplog.rs";
              Seconds := 60 |}
           {| From := "db1:27017"; OplogNS := "local.oplog.rs";
              Seconds := 63 |}
           Setup.oplog Scenario.op3).
  - vm_compute. split; reflexivity.
  - vm_compute. split; reflexivity.
  - vm_compute. discriminate.
  - vm_compute. discriminate.
  - vm_compute. reflexivity.
  - vm_compute. left. reflexivity.
Defined.

(** * The verifiers of the replay tests *)

Lemma Failed_app (t l : testing.T) :
  testing.Failed (t ++ l) = testing.Failed t || testing.Failed l.
Proof. apply existsb_app. Qed.

Lemma Failed_error (t : testing.T) (msg : string) :
  testing.Failed (t ++ [testing.Error msg]) = true.
Proof. rewrite Failed_app. simpl. apply orb_true_r. Qed.

Lemma len_cons {A} (x : A) (l : list A) : len (x :: l) = 1 + len l.
Proof. unfold len. simpl List.length. lia. Qed.

Lemma len_filter_le {A} (f : A -> bool) (l : list A) :
  len (filter f l) <= len l.
Proof.
  induction l as [|x l IH]; simpl; [lia|].
  destruct (f x); rewrite ?len_cons in *; lia.
Qed.

Lemma int64_count (n : Z) : 0 <= n < 2 ^ 63 -> int64 (0 + n) = n.
Proof. intros H. apply int64_small. lia. Qed.

(** ** The documents of the op_command test *)

Lemma checkTestNums_ind (results : list Z) : forall ind t,
  int64 (fst (checkTestNums results ind t)) = int64 (ind + len results).
Proof.
  induction results as [|x rest IH]; intros ind t; simpl.
  - f_equal. unfold len. simpl. lia.
  - rewrite IH, int64_idem_add, len_cons. f_equal. lia.
Qed.

Lemma checkTestNums_failed (results : list Z) : forall ind t,
  testing.Failed t = true ->
  testing.Failed (snd (checkTestNums results ind t)) = true.
Proof.
  induction results as [|x rest IH]; intros ind t Hf; simpl; [exact Hf|].
  apply IH. destruct (negb (x =? ind)); [apply Failed_error | exact Hf].
Qed.

(** X19. The verifier of the op_command test accepts one answer of the
    database only: the two documents numbered 1 and 2, in this order.
    Any other sequence of documents fails the test. *)
Theorem verifyOpCommand_accepts_one_two (results : list Z) :
  len results < 2 ^ 63 ->
  testing.Failed (verifyOpCommand results) = false <-> results = [1; 2].
Proof.
  intros Hlen. split.
  - unfold verifyOpCommand.
    pose proof (checkTestNums_ind results 1
      [testing.Log "Verifying that the correct number of getmores were seen";
       testing.Log "Querying database to ensure insert occured successfully"])
      as Hind.
    destruct (checkTestNums results 1 _) as [ind t] eqn:E. cbn [fst] in Hind.
    destruct (Z.eqb_spec ind 3) as [->|Hne]; simpl;
      [|rewrite Failed_error; discriminate].
    intros Hok.
    assert (Hl : len results = 2).
    { pose proof (len_nonneg results).
      destruct (Z.eq_dec (1 + len results) (2 ^ 63)) as [Hmax|Hmax].
      - rewrite Hmax in Hind. vm_compute in Hind. discriminate.
      - rewrite (int64_small (1 + len results)) in Hind by lia.
        change (int64 3) with 3 in Hind. lia. }
    destruct results as [|a [|b [|c rest]]];
      try (unfold len in Hl; simpl in Hl; lia).
    apply (f_equal snd) in E. cbn [checkTestNums snd] in E.
    change (int64 (1 + 1)) with 2 in E.
    destruct (Z.eqb_spec a 1) as [->|Ha]; destruct (Z.eqb_spec b 2) as [->|Hb];
      cbn [negb] in E; subst t; try reflexivity;
      rewrite Failed_error in Hok; discriminate Hok.
  - intros ->. reflexivity.
Qed.

Lemma verifyOpCommand_accepts_one_two_witness :
  testing.Failed (verifyOpCommand [1; 2]) = false
  /\ testing.Failed (verifyOpCommand [1; 2; 3]) <> false.
Proof.
  split.
  - apply (proj2 (verifyOpCommand_accepts_one_two [1; 2]
                    ltac:(vm_compute; reflexivity))).
    reflexivity.
  - intros H.
    apply (proj1 (verifyOpCommand_accepts_one_two [1; 2; 3]
                    ltac:(vm_compute; reflexivity))) in H.
    discriminate H.
Defined.

(** ** The getmores of the cursor tests *)

Section StatVerifierFacts.

Variable OpStat : Type.
Variable OpType : OpStat -> string.
Variable Command : OpStat -> string.
Variable NumReturned : OpStat -> Z.

Let getmores (buffer : list OpStat) : list OpStat :=
  filter (isGetMore OpStat OpType) buffer.

Let aggregates (buffer : list OpStat) : list OpStat :=
  filter (isAggregate OpStat OpType Command) buffer.

Lemma aggregate_not_getmore (val : OpStat) :
  isAggregate OpStat OpType Command val = true ->
  isGetMore OpStat OpType val = false.
Proof.
  unfold isAggregate, isGetMore. intros H.
  apply andb_true_iff in H as [H _]. apply String.eqb_eq in H.
  rewrite H. reflexivity.
Qed.

Lemma scanSingleChannel_spec (buffer : list OpStat) : forall g t,
  - 2 ^ 63 <= g < 2 ^ 63 ->
  - 2 ^ 63 <= fst (scanSingleChannel OpStat OpType NumReturned buffer g t)
    < 2 ^ 63
  /\ int64 (fst (scanSingleChannel OpStat OpType NumReturned buffer g t))
     = int64 (g + len (getmores buffer))
  /\ (testing.Failed
        (snd (scanSingleChannel OpStat OpType NumReturned buffer g t)) = false
      <-> testing.Failed t = false
          /\ forall val, In val buffer -> OpType val = "getmore" ->
                         NumReturned val <= 0).
Proof.
  induction buffer as [|x rest IH]; intros g t Hg;
    cbn [scanSingleChannel fst snd].
  - split; [exact Hg|]. split; [f_equal; unfold len; simpl; lia|].
    split; [intros H; split; [exact H | intros val []] | now intros [H _]].
  - unfold getmores, isGetMore in *. cbn [filter].
    destruct (String.eqb_spec (OpType x) "getmore") as [Hx|Hx].
    + match goal with
      | |- context [scanSingleChannel _ _ _ rest ?g' ?t'] =>
          destruct (IH g' t' (int64_range _)) as [Hr [Hc Hf]]
      end.
      split; [exact Hr|]. split.
      * rewrite Hc, int64_idem_add, len_cons. f_equal. lia.
      * rewrite Hf. destruct (Z.gtb_spec (NumReturned x) 0) as [Hpos|Hle].
        -- rewrite Failed_error. split; [intros [H _]; discriminate|].
           intros [_ H]. specialize (H x (or_introl eq_refl) Hx). lia.
        -- split.
           ++ intros [Ht Hall]. split; [exact Ht|].
              intros val [<-|Hin] Hv; [exact Hle | now apply Hall].
           ++ intros [Ht Hall]. split; [exact Ht|].
              intros val Hin. apply Hall. now right.
    + destruct (IH g t Hg) as [Hr [Hc Hf]].
      split; [exact Hr|]. split; [exact Hc|].
      rewrite Hf. split.
      * intros [Ht Hall]. split; [exact Ht|].
        intros val [<-|Hin] Hv; [contradiction | now apply Hall].
      * intros [Ht Hall]. split; [exact Ht|].
        intros val Hin. apply Hall. now right.
Qed.

(** X20. The verifier of the single-channel test passes exactly when the
    buffer holds eight getmores, none of them returned a document, and the
    collection counts at least one document. *)
Theorem verifySingleChannel_passes_iff (buffer : list OpStat) (num : Z) :
  len buffer < 2 ^ 63 ->
  testing.Failed (verifySingleChannel OpStat OpType NumReturned buffer num)
  = false
  <-> len (filter (fun val => (OpType val =? "getmore")%string) buffer) = 8
      /\ (forall val, In val buffer -> OpType val = "getmore" ->
                      NumReturned val <= 0)
      /\ 1 <= num.
Proof.
  intros Hlen. unfold verifySingleChannel.
  destruct (scanSingleChannel_spec buffer 0 [] ltac:(lia)) as [Hr [Hc Hf]].
  destruct (scanSingleChannel OpStat OpType NumReturned buffer 0 [])
    as [seen t]. cbn [fst snd] in Hr, Hc, Hf.
  assert (Hseen : seen = len (getmores buffer)).
  { rewrite (int64_small seen) in Hc by exact Hr.
    rewrite Hc. apply int64_count.
    pose proof (len_filter_le (isGetMore OpStat OpType) buffer).
    pose proof (len_nonneg (getmores buffer)). unfold getmores in *. lia. }
  unfold getmores, isGetMore in Hseen.
  destruct (Z.eqb_spec seen 8) as [H8|H8]; cbn [negb];
    destruct (Z.ltb_spec num 1) as [Hn|Hn];
    rewrite ?Failed_error, ?Hf.
  - split; [discriminate | lia].
  - split; [intros [_ H]; split; [congruence|]; split; [exact H | lia]
           | intros [_ [H _]]; now split].
  - split; [discriminate | lia].
  - split; [discriminate | intros [H _]; congruence].
Qed.

Lemma filter_cons_true {A} (f : A -> bool) (x : A) (l : list A) :
  f x = true -> filter f (x :: l) = x :: filter f l.
Proof. intros H. cbn [filter]. now rewrite H. Qed.

Lemma filter_cons_false {A} (f : A -> bool) (x : A) (l : list A) :
  f x = false -> filter f (x :: l) = filter f l.
Proof. intros H. cbn [filter]. now rewrite H. Qed.

Lemma scanMultiChannel_spec (buffer : list OpStat) : forall a g t,
  - 2 ^ 63 <= a < 2 ^ 63 -> - 2 ^ 63 <= g < 2 ^ 63 ->
  - 2 ^ 63
    <= snd (fst (scanMultiChannel OpStat OpType Command NumReturned
                   buffer a g t)) < 2 ^ 63
  /\ int64 (snd (fst (scanMultiChannel OpStat OpType Command NumReturned
                        buffer a g t)))
     = int64 (g + len (getmores buffer))
  /\ (testing.Failed
        (snd (scanMultiChannel OpStat OpType Command NumReturned
                buffer a g t)) = false
      <-> testing.Failed t = false
          /\ forall pre val post,
               buffer = pre ++ val :: post -> OpType val = "getmore" ->
               int64 (a + len (aggregates pre)) = 2
               /\ 100 <= NumReturned val).
Proof.
  induction buffer as [|x rest IH]; intros a g t Ha Hg;
    cbn [scanMultiChannel fst snd].
  - split; [exact Hg|]. split; [f_equal; unfold len; simpl; lia|].
    split; [|now intros [H _]].
    intros H. split; [exact H|]. intros [|? ?] val post E; discriminate E.
  - fold (isAggregate OpStat OpType Command x).
    fold (isGetMore OpStat OpType x).
    destruct (isAggregate OpStat OpType Command x) eqn:Hagg.
    + (* an aggregate command *)
      pose proof (aggregate_not_getmore x Hagg) as Hng.
      destruct (IH (int64 (a + 1)) g t (int64_range _) Hg) as [Hr [Hc Hf]].
      split; [exact Hr|]. split.
      * rewrite Hc. unfold getmores. now rewrite (filter_cons_false _ _ _ Hng).
      * rewrite Hf. split; intros [Ht Hall]; (split; [exact Ht|]).
        -- intros [|y pre] val post E Hv; injection E as -> ->.
           ++ unfold isGetMore in Hng. rewrite Hv in Hng. discriminate.
           ++ destruct (Hall pre val post eq_refl Hv) as [H2 H100].
              split; [|exact H100]. unfold aggregates in *.
              rewrite (filter_cons_true _ _ _ Hagg), len_cons.
              rewrite int64_idem_add in H2.
              rewrite <- H2. f_equal. lia.
        -- intros pre val post -> Hv.
           destruct (Hall (x :: pre) val post eq_refl Hv) as [H2 H100].
           split; [|exact H100]. unfold aggregates in *.
           rewrite (filter_cons_true _ _ _ Hagg), len_cons in H2.
           rewrite int64_idem_add.
           rewrite <- H2. f_equal. lia.
    + destruct (isGetMore OpStat OpType x) eqn:Hgm.
      * (* a getmore *)
        assert (Hx : OpType x = "getmore")
          by (now apply String.eqb_eq).
        match goal with
        | |- context [scanMultiChannel _ _ _ _ rest a ?g' ?t'] =>
            destruct (IH a g' t' Ha (int64_range _)) as [Hr [Hc Hf]];
            assert (Ht2 : testing.Failed t' = false
                          <-> testing.Failed t = false /\ a = 2
                              /\ 100 <= NumReturned x)
        end.
        { destruct (Z.ltb_spec (NumReturned x) 100);
            destruct (Z.eqb_spec a 2); cbn [negb];
            rewrite ?Failed_error; intuition (try discriminate; lia). }
        split; [exact Hr|]. split.
        -- rewrite Hc, int64_idem_add. unfold getmores.
           rewrite (filter_cons_true _ _ _ Hgm), len_cons. f_equal. lia.
        -- rewrite Hf, Ht2. split.
           ++ intros [[Ht [Ha2 H100]] Hall]. split; [exact Ht|].
              intros [|y pre] val post E Hv; injection E as -> ->.
              ** split; [|exact H100]. unfold aggregates. cbn [filter].
                 change (len (@nil OpStat)) with 0.
                 rewrite Z.add_0_r. rewrite int64_small by exact Ha.
                 exact Ha2.
              ** destruct (Hall pre val post eq_refl Hv) as [H2 H1].
                 split; [|exact H1]. unfold aggregates in *.
                 now rewrite (filter_cons_false _ _ _ Hagg).
           ++ intros [Ht Hall]. split.
              ** destruct (Hall [] x rest eq_refl Hx) as [H2 H1].
                 split; [exact Ht|]. split; [|exact H1].
                 unfold aggregates in H2. cbn [filter] in H2.
                 change (len (@nil OpStat)) with 0 in H2.
                 rewrite Z.add_0_r in H2.
                 now rewrite int64_small in H2 by exact Ha.
              ** intros pre val post -> Hv.
                 destruct (Hall (x :: pre) val post eq_refl Hv) as [H2 H1].
                 split; [|exact H1]. unfold aggregates in *.
                 now rewrite (filter_cons_false _ _ _ Hagg) in H2.
      * (* any other operation *)
        assert (Hx : OpType x <> "getmore").
        { intros E. unfold isGetMore in Hgm. rewrite E in Hgm. discriminate. }
        destruct (IH a g t Ha Hg) as [Hr [Hc Hf]].
        split; [exact Hr|]. split.
        -- rewrite Hc. unfold getmores.
           now rewrite (filter_cons_false _ _ _ Hgm).
        -- rewrite Hf. split; intros [Ht Hall]; (split; [exact Ht|]).
           ++ intros [|y pre] val post E Hv; injection E as -> ->;
                [contradiction|].
              destruct (Hall pre val post eq_refl Hv) as [H2 H1].
              split; [|exact H1]. unfold aggregates in *.
              now rewrite (filter_cons_false _ _ _ Hagg).
           ++ intros pre val post -> Hv.
              destruct (Hall (x :: pre) val post eq_refl Hv) as [H2 H1].
              split; [|exact H1]. unfold aggregates in *.
              now rewrite (filter_cons_false _ _ _ Hagg) in H2.
Qed.

(** X21. The verifier of the multi-channel test passes exactly when the
    buffer holds eight getmores, each of them returned at least 100
    documents and has exactly two aggregate commands before it, and the
    collection counts at least one document. So both aggregates precede
    the first getmore, and a third one anywhere before the last getmore
    fails the test. *)
Theorem verifyMultiChannel_passes_iff (buffer : list OpStat) (num : Z) :
  len buffer < 2 ^ 63 ->
  testing.Failed
    (verifyMultiChannel OpStat OpType Command NumReturned buffer num) = false
  <-> len (filter (fun val => (OpType val =? "getmore")%string) buffer) = 8
      /\ (forall pre val post,
            buffer = pre ++ val :: post -> OpType val = "getmore" ->
            len (filter
                   (fun v => (OpType v =? "command")%string
                             && (Command v =? "aggregate")%string) pre) = 2
            /\ 100 <= NumReturned val)
      /\ 1 <= num.
Proof.
  intros Hlen. unfold verifyMultiChannel.
  destruct (scanMultiChannel_spec buffer 0 0 [] ltac:(lia) ltac:(lia))
    as [Hr [Hc Hf]].
  destruct (scanMultiChannel OpStat OpType Command NumReturned buffer 0 0 [])
    as [[aggs seen] t]. cbn [fst snd] in Hr, Hc, Hf.
  assert (Hseen : seen = len (getmores buffer)).
  { rewrite (int64_small seen) in Hc by exact Hr.
    rewrite Hc. apply int64_count.
    pose proof (len_filter_le (isGetMore OpStat OpType) buffer).
    pose proof (len_nonneg (getmores buffer)). unfold getmores in *. lia. }
  assert (Hpre : (forall pre val post,
                    buffer = pre ++ val :: post -> OpType val = "getmore" ->
                    int64 (0 + len (aggregates pre)) = 2
                    /\ 100 <= NumReturned val)
                 <-> (forall pre val post,
                        buffer = pre ++ val :: post -> OpType val = "getmore" ->
                        len (aggregates pre) = 2 /\ 100 <= NumReturned val)).
  { assert (Hb : forall pre val post, buffer = pre ++ val :: post ->
                   0 <= len (aggregates pre) < 2 ^ 63).
    { intros pre val post ->.
      pose proof (len_filter_le (isAggregate OpStat OpType Command) pre).
      pose proof (len_nonneg (aggregates pre)).
      unfold len in Hlen. rewrite length_app in Hlen. unfold aggregates, len in *.
      lia. }
    split; intros H pre val post E Hv;
      destruct (H pre val post E Hv) as [H2 H1]; (split; [|exact H1]).
    - now rewrite int64_count in H2 by eauto.
    - now rewrite int64_count by eauto. }
  unfold getmores, isGetMore in Hseen. unfold aggregates, isAggregate in Hpre.
  unfold aggregates in Hf. rewrite Hpre in Hf.
  destruct (Z.eqb_spec seen 8) as [H8|H8]; cbn [negb];
    destruct (Z.ltb_spec num 1) as [Hn|Hn];
    rewrite ?Failed_error, ?Hf.
  - split; [discriminate | lia].
  - split; [intros [_ H]; split; [congruence|]; split; [exact H | lia]
           | intros [_ [H _]]; now split].
  - split; [discriminate | lia].
  - split; [discriminate | intros [H _]; congruence].
Qed.

End StatVerifierFacts.

Lemma verifySingleChannel_passes_iff_witness :
  len (filter (fun val => (statType val =? "getmore")%string)
         single_channel_buffer) = 8
  /\ (forall val, In val single_channel_buffer ->
                  statType val = "getmore" -> statReturned val <= 0)
  /\ 1 <= 1.
Proof.
  apply (proj1 (verifySingleChannel_passes_iff stat statType statReturned
                  single_channel_buffer 1 ltac:(vm_compute; reflexivity))).
  vm_compute. reflexivity.
Defined.

Lemma verifyMultiChannel_passes_iff_witness :
  len (filter (fun val => (statType val =? "getmore")%string)
         multi_channel_buffer) = 8
  /\ (forall pre val post,
        multi_channel_buffer = pre ++ val :: post ->
        statType val = "getmore" ->
        len (filter
               (fun v => (statType v =? "command")%string
                         && (statCommand v =? "aggregate")%string) pre) = 2
        /\ 100 <= statReturned val)
  /\ 1 <= 1.
Proof.
  apply (proj1 (verifyMultiChannel_passes_iff stat statType statCommand
                  statReturned multi_channel_buffer 1
                  ltac:(vm_compute; reflexivity))).
  vm_compute. reflexivity.
Defined.

(** A third aggregate between the getmores fails the multi-channel
    test, and so does a getmore ahead of the aggregates. *)
Example late_aggregate_fails :
  testing.Failed
    (verifyMultiChannel stat statType statCommand statReturned
       ([aggregate; aggregate; getmore 101; aggregate]
          ++ repeat (getmore 101) 7) 1) = true
  /\ testing.Failed
       (verifyMultiChannel stat statType statCommand statReturned
          ([aggregate; getmore 101; aggregate] ++ repeat (getmore 101) 7) 1)
     = true.
Proof. split; vm_compute; reflexivity. Qed.
